(** * GA3.py: request builders for an LLM API, embedded in Rocq

    The module [src/GA3.py] is a set of helper functions that build JSON
    request bodies, return fixed strings, make one HTTP POST and read one
    file.  This development embeds them shallowly:

    - a Python [str] is a list of Unicode code points ([pystr]);
    - the dynamically typed values the functions handle (None, bool, int,
      str, list, dict) form the inductive type [pyval]; a dict is an
      association list in insertion order, as the order decides what
      [json.dumps] prints;
    - a raised exception is the [Raise] case of [result];
    - effects (environment lookup, file read, HTTP POST, printing) go
      through the state monad [M] over a [world] that records a trace.

    [json.dumps], [base64.b64encode] and the subscript and iteration
    protocols are library code; they are modelled after CPython 3.9+
    (the annotation [list[str]] at line 209 needs 3.9). *)

From Stdlib Require Import Bool String Ascii List NArith ZArith Lia.
From Stdlib Require Import Decimal DecimalFacts DecimalZ.
From Stdlib Require Strings.Byte NArith.BinNat.
From Stdlib Require Import Strings.Byte.
Import ListNotations.

Set Implicit Arguments.
Set Warnings "-register-all".

(* ================================================================== *)
(** * Part I: the model *)
(* ================================================================== *)

(** ** Strings *)

Abbreviation codepoint := N (only parsing).
Abbreviation pystr := (list N) (only parsing).

(** The Python string with the characters of an (ASCII) Rocq literal. *)
Definition u (s : string) : pystr := map N_of_ascii (list_ascii_of_string s).

(** In the long literals below a backquote stands for the double quote
    (the source has no backquote); [q] puts the double quotes back. *)
Definition unquote_char (c : codepoint) : codepoint :=
  if N.eqb c 96 then 34%N else c.

Definition q (s : string) : pystr := map unquote_char (u s).

(** A multi-line literal, given line by line. *)
Fixpoint lines (ls : list pystr) : pystr :=
  match ls with
  | [] => []
  | [l] => l
  | l :: rest => l ++ 10%N :: lines rest
  end.

Fixpoint pystr_eqb (a b : pystr) : bool :=
  match a, b with
  | [], [] => true
  | x :: a', y :: b' => N.eqb x y && pystr_eqb a' b'
  | _, _ => false
  end.

(** Unicode scalar values: code points that are no surrogates.  A string of
    scalar values is what UTF-8 text decodes to. *)
Definition is_surrogate (c : codepoint) : bool :=
  (N.leb 55296 c && N.leb c 57343)%bool.

Definition scalar (c : codepoint) : Prop :=
  (c < 1114112)%N /\ is_surrogate c = false.

Definition scalar_str (s : pystr) : Prop := Forall scalar s.

(** ** Values *)

(** Dict keys: the hashable values of the fragment. *)
Inductive pykey : Type :=
| KNone
| KBool (b : bool)
| KInt (z : Z)
| KStr (s : pystr).

Unset Elimination Schemes.
Inductive pyval : Type :=
| PNone
| PBool (b : bool)
| PInt (z : Z)
| PStr (s : pystr)
| PList (l : list pyval)
| PDict (d : list (pykey * pyval)).
Set Elimination Schemes.

Abbreviation dict := (list (pykey * pyval)) (only parsing).

Definition key_val (k : pykey) : pyval :=
  match k with
  | KNone => PNone
  | KBool b => PBool b
  | KInt z => PInt z
  | KStr s => PStr s
  end.

(** Python compares keys with [==]: [True == 1] and [False == 0]. *)
Definition key_num (k : pykey) : option Z :=
  match k with
  | KBool b => Some (if b then 1%Z else 0%Z)
  | KInt z => Some z
  | _ => None
  end.

Definition key_eqb (a b : pykey) : bool :=
  match a, b with
  | KNone, KNone => true
  | KStr s, KStr t => pystr_eqb s t
  | _, _ =>
      match key_num a, key_num b with
      | Some x, Some y => Z.eqb x y
      | _, _ => false
      end
  end.

Fixpoint dict_get (d : dict) (k : pykey) : option pyval :=
  match d with
  | [] => None
  | (k', v) :: rest => if key_eqb k' k then Some v else dict_get rest k
  end.

(** [d[k] = v]: an existing key keeps its place (and its key object), a new
    one goes to the end. *)
Fixpoint dict_set (d : dict) (k : pykey) (v : pyval) : dict :=
  match d with
  | [] => [(k, v)]
  | (k', v') :: rest =>
      if key_eqb k' k then (k', v) :: rest else (k', v') :: dict_set rest k v
  end.

Definition dict_keys (d : dict) : list pykey := map fst d.

(** ** Exceptions *)

Inductive exn : Type :=
| KeyError (k : pykey)
| TypeError
| OSError
| RequestException
| JSONDecodeError.

Inductive result (A : Type) : Type :=
| Ok (a : A)
| Raise (e : exn).

Arguments Ok {A} a.
Arguments Raise {A} e.

Definition rbind {A B} (r : result A) (k : A -> result B) : result B :=
  match r with
  | Ok a => k a
  | Raise e => Raise e
  end.

Declare Scope result_scope.
Delimit Scope result_scope with result.
Notation "x <- r ;; k" := (rbind r (fun x => k))
  (at level 61, r at next level, right associativity) : result_scope.

(** [o[k]] for a string [k]: only a dict takes a string subscript. *)
Definition getitem (o : pyval) (k : pystr) : result pyval :=
  match o with
  | PDict d =>
      match dict_get d (KStr k) with
      | Some v => Ok v
      | None => Raise (KeyError (KStr k))
      end
  | _ => Raise TypeError
  end.

(** [for item in o]: a list yields its elements, a dict its keys, a string
    its characters; the other values are not iterable. *)
Definition iterate (o : pyval) : result (list pyval) :=
  match o with
  | PList l => Ok l
  | PDict d => Ok (map key_val (dict_keys d))
  | PStr s => Ok (map (fun c => PStr [c]) s)
  | _ => Raise TypeError
  end.

(** Using a value as a dict key: lists and dicts are unhashable. *)
Definition to_key (o : pyval) : result pykey :=
  match o with
  | PNone => Ok KNone
  | PBool b => Ok (KBool b)
  | PInt z => Ok (KInt z)
  | PStr s => Ok (KStr s)
  | _ => Raise TypeError
  end.

(** ** [json.dumps(o, indent=2)] *)

(** [ensure_ascii] is on by default: [py_encode_basestring_ascii] of
    [json/encoder.py].  The characters from space to tilde other than the
    double quote and the backslash stand for themselves; the others are
    escaped. *)
Definition hex_digit (d : N) : codepoint :=
  if N.ltb d 10 then (48 + d)%N else (87 + d)%N.

(** ['{0:04x}'.format(n)] for [n < 0x10000]. *)
Definition hex4 (n : N) : pystr :=
  [hex_digit (N.shiftr n 12 mod 16); hex_digit (N.shiftr n 8 mod 16);
   hex_digit (N.shiftr n 4 mod 16); hex_digit (n mod 16)]%N.

Definition escape_u (n : N) : pystr := 92%N :: 117%N :: hex4 n.

Definition escape_char (c : codepoint) : pystr :=
  if N.eqb c 92 then u "\\"
  else if N.eqb c 34 then [92; 34]%N
  else if N.eqb c 8 then u "\b"
  else if N.eqb c 12 then u "\f"
  else if N.eqb c 10 then u "\n"
  else if N.eqb c 13 then u "\r"
  else if N.eqb c 9 then u "\t"
  else if (N.leb 32 c && N.leb c 126)%bool then [c]
  else if N.ltb c 65536 then escape_u c
  else
    let n := (c - 65536)%N in
    let s1 := N.lor 55296 (N.land (N.shiftr n 10) 1023) in
    let s2 := N.lor 56320 (N.land n 1023) in
    escape_u s1 ++ escape_u s2.

Definition encode_chars (s : pystr) : pystr := flat_map escape_char s.

Definition encode_basestring_ascii (s : pystr) : pystr :=
  34%N :: encode_chars s ++ [34%N].

(** [int.__repr__]: decimal digits, a minus sign for a negative number.
    (CPython 3.11 refuses to print an int of more than 4300 digits; such
    ints are outside the model.) *)
Definition digit_char (d : N) : codepoint := (48 + d)%N.

Fixpoint uint_chars (d : Decimal.uint) : pystr :=
  match d with
  | Nil => []
  | D0 r => digit_char 0 :: uint_chars r
  | D1 r => digit_char 1 :: uint_chars r
  | D2 r => digit_char 2 :: uint_chars r
  | D3 r => digit_char 3 :: uint_chars r
  | D4 r => digit_char 4 :: uint_chars r
  | D5 r => digit_char 5 :: uint_chars r
  | D6 r => digit_char 6 :: uint_chars r
  | D7 r => digit_char 7 :: uint_chars r
  | D8 r => digit_char 8 :: uint_chars r
  | D9 r => digit_char 9 :: uint_chars r
  end.

Definition int_repr (z : Z) : pystr :=
  match Z.to_int z with
  | Pos d => uint_chars d
  | Neg d => 45%N :: uint_chars d
  end.

(** A dict key is printed as a string: [json.dumps] turns [True], [False],
    [None] and ints into their JSON spelling first. *)
Definition key_str (k : pykey) : pystr :=
  match k with
  | KStr s => s
  | KBool true => u "true"
  | KBool false => u "false"
  | KNone => u "null"
  | KInt z => int_repr z
  end.

(** With [indent=2] every item of a non-empty list or dict starts on a line
    of its own, indented two spaces per nesting level; the item separator is
    a comma and the key separator a colon and a space. *)
Definition newline_indent (level : nat) : pystr :=
  10%N :: repeat 32%N (2 * level).

Fixpoint join_items (level : nat) (items : list pystr) : pystr :=
  match items with
  | [] => []
  | x :: rest =>
      newline_indent level ++ x ++
      match rest with
      | [] => []
      | _ => 44%N :: join_items level rest
      end
  end.

Fixpoint dumps_at (level : nat) (o : pyval) : pystr :=
  match o with
  | PNone => u "null"
  | PBool true => u "true"
  | PBool false => u "false"
  | PInt z => int_repr z
  | PStr s => encode_basestring_ascii s
  | PList [] => u "[]"
  | PList l =>
      91%N :: join_items (S level) (map (dumps_at (S level)) l)
      ++ newline_indent level ++ [93%N]
  | PDict [] => u "{}"
  | PDict d =>
      123%N :: join_items (S level)
        (map (fun kv => encode_basestring_ascii (key_str (fst kv))
                        ++ u ": " ++ dumps_at (S level) (snd kv)) d)
      ++ newline_indent level ++ [125%N]
  end.

Definition dumps (o : pyval) : pystr := dumps_at 0 o.

(** ** Reading JSON back

    Whether a string is valid JSON, and which value it denotes, is decided
    by a reader for the grammar of RFC 8259, after [json.loads]
    ([json/decoder.py], [json/scanner.py]).  It is stricter in one respect:
    of the numbers it reads integers only, and rejects a fraction or an
    exponent, as the fragment has no floats.  An object becomes a dict, so
    of a repeated name the last value stays. *)

Definition is_ws (c : codepoint) : bool :=
  (N.eqb c 32 || N.eqb c 10 || N.eqb c 13 || N.eqb c 9)%bool.

Fixpoint skip_ws (s : pystr) : pystr :=
  match s with
  | c :: s' => if is_ws c then skip_ws s' else s
  | [] => []
  end.

Definition hex_val (c : codepoint) : option N :=
  if (N.leb 48 c && N.leb c 57)%bool then Some (c - 48)%N
  else if (N.leb 97 c && N.leb c 102)%bool then Some (c - 87)%N
  else if (N.leb 65 c && N.leb c 70)%bool then Some (c - 55)%N
  else None.

Definition scan_hex4 (s : pystr) : option (N * pystr) :=
  match s with
  | a :: b :: c :: d :: r =>
      match hex_val a, hex_val b, hex_val c, hex_val d with
      | Some x, Some y, Some z, Some w =>
          Some ((((x * 16 + y) * 16 + z) * 16 + w)%N, r)
      | _, _, _, _ => None
      end
  | _ => None
  end.

(** After a backslash and a [u]: four hex digits, and when they are a high
    surrogate and a second escape with a low surrogate follows, the two
    make one code point. *)
Definition scan_escape_u (s : pystr) : option (codepoint * pystr) :=
  match scan_hex4 s with
  | None => None
  | Some (uni, r) =>
      if (N.leb 55296 uni && N.leb uni 56319)%bool then
        match r with
        | 92%N :: 117%N :: r2 =>
            match scan_hex4 r2 with
            | Some (uni2, r3) =>
                if (N.leb 56320 uni2 && N.leb uni2 57343)%bool
                then Some ((65536 + N.lor (N.shiftl (uni - 55296) 10)
                                          (uni2 - 56320))%N, r3)
                else Some (uni, r)
            | None => None
            end
        | _ => Some (uni, r)
        end
      else Some (uni, r)
  end.

Definition simple_escape (e : codepoint) : option codepoint :=
  if N.eqb e 34 then Some 34%N
  else if N.eqb e 92 then Some 92%N
  else if N.eqb e 47 then Some 47%N
  else if N.eqb e 98 then Some 8%N
  else if N.eqb e 102 then Some 12%N
  else if N.eqb e 110 then Some 10%N
  else if N.eqb e 114 then Some 13%N
  else if N.eqb e 116 then Some 9%N
  else None.

(** The characters of a string up to its closing quote.  Every step takes
    at least one character, so the length of the input is fuel enough. *)
Fixpoint scan_chars (fuel : nat) (s : pystr) : option (pystr * pystr) :=
  match fuel with
  | O => None
  | S f =>
      match s with
      | [] => None
      | c :: s' =>
          if N.eqb c 34 then Some ([], s')
          else if N.eqb c 92 then
            match s' with
            | [] => None
            | e :: s'' =>
                match (if N.eqb e 117 then scan_escape_u s''
                       else match simple_escape e with
                            | Some x => Some (x, s'')
                            | None => None
                            end) with
                | Some (x, r) =>
                    match scan_chars f r with
                    | Some (cs, r') => Some (x :: cs, r')
                    | None => None
                    end
                | None => None
                end
            end
          else if N.ltb c 32 then None
          else
            match scan_chars f s' with
            | Some (cs, r') => Some (c :: cs, r')
            | None => None
            end
      end
  end.

Definition scan_string (s : pystr) : option (pystr * pystr) :=
  scan_chars (length s) s.

Definition digit_of (c : codepoint) : option (Decimal.uint -> Decimal.uint) :=
  if N.eqb c 48 then Some D0
  else if N.eqb c 49 then Some D1
  else if N.eqb c 50 then Some D2
  else if N.eqb c 51 then Some D3
  else if N.eqb c 52 then Some D4
  else if N.eqb c 53 then Some D5
  else if N.eqb c 54 then Some D6
  else if N.eqb c 55 then Some D7
  else if N.eqb c 56 then Some D8
  else if N.eqb c 57 then Some D9
  else None.

Fixpoint scan_digits (s : pystr) : Decimal.uint * pystr :=
  match s with
  | [] => (Nil, [])
  | c :: s' =>
      match digit_of c with
      | Some D => let (d, r) := scan_digits s' in (D d, r)
      | None => (Nil, s)
      end
  end.

(** JSON writes no leading zero: [0] alone, or a first digit from 1 to 9. *)
Definition leading_zero (d : Decimal.uint) : bool :=
  match d with
  | D0 Nil => false
  | D0 _ => true
  | _ => false
  end.

(** What may not follow the digits of an integer: a further digit, or the
    point or exponent letter of a float. *)
Definition number_goes_on (r : pystr) : bool :=
  match r with
  | [] => false
  | c :: _ =>
      match digit_of c with
      | Some _ => true
      | None => (N.eqb c 46 || N.eqb c 101 || N.eqb c 69)%bool
      end
  end.

Definition scan_uint (s : pystr) : option (Decimal.uint * pystr) :=
  let (d, r) := scan_digits s in
  match d with
  | Nil => None
  | _ => if (leading_zero d || number_goes_on r)%bool then None else Some (d, r)
  end.

Definition scan_int (s : pystr) : option (Z * pystr) :=
  match s with
  | 45%N :: s' =>
      match scan_uint s' with
      | Some (d, r) => Some (Z.of_int (Neg d), r)
      | None => None
      end
  | _ =>
      match scan_uint s with
      | Some (d, r) => Some (Z.of_int (Pos d), r)
      | None => None
      end
  end.

Fixpoint match_prefix (p s : pystr) : option pystr :=
  match p, s with
  | [], _ => Some s
  | a :: p', b :: s' => if N.eqb a b then match_prefix p' s' else None
  | _ :: _, [] => None
  end.

(** [dict(pairs)]: the pairs inserted from left to right. *)
Definition dict_of_pairs (pairs : list (pykey * pyval)) : dict :=
  fold_left (fun d kv => dict_set d (fst kv) (snd kv)) pairs [].

Section Containers.

(** The reader of one value, which the readers of arrays and objects call
    for their items. *)
Variable parse_item : pystr -> option (pyval * pystr).

(** The items of an array after its first bracket, up to the closing one. *)
Fixpoint parse_elements (fuel : nat) (s : pystr)
  : option (list pyval * pystr) :=
  match fuel with
  | O => None
  | S f =>
      match parse_item s with
      | None => None
      | Some (v, r) =>
          match skip_ws r with
          | 44%N :: r' =>
              match parse_elements f r' with
              | Some (vs, r'') => Some (v :: vs, r'')
              | None => None
              end
          | 93%N :: r' => Some ([v], r')
          | _ => None
          end
      end
  end.

(** The members of an object after its first brace, up to the closing one. *)
Fixpoint parse_members (fuel : nat) (s : pystr)
  : option (list (pykey * pyval) * pystr) :=
  match fuel with
  | O => None
  | S f =>
      match skip_ws s with
      | 34%N :: s1 =>
          match scan_string s1 with
          | None => None
          | Some (k, s2) =>
              match skip_ws s2 with
              | 58%N :: s3 =>
                  match parse_item s3 with
                  | None => None
                  | Some (v, r) =>
                      match skip_ws r with
                      | 44%N :: r' =>
                          match parse_members f r' with
                          | Some (kvs, r'') => Some ((KStr k, v) :: kvs, r'')
                          | None => None
                          end
                      | 125%N :: r' => Some ([(KStr k, v)], r')
                      | _ => None
                      end
                  end
              | _ => None
              end
          end
      | _ => None
      end
  end.

End Containers.

Definition literal (p : string) (v : pyval) (s : pystr)
  : option (pyval * pystr) :=
  match match_prefix (u p) s with
  | Some r => Some (v, r)
  | None => None
  end.

Fixpoint parse_value (fuel : nat) (s : pystr) : option (pyval * pystr) :=
  match fuel with
  | O => None
  | S f =>
      match skip_ws s with
      | [] => None
      | c :: s' =>
          if N.eqb c 34 then
            match scan_string s' with
            | Some (str, r) => Some (PStr str, r)
            | None => None
            end
          else if N.eqb c 91 then
            match skip_ws s' with
            | 93%N :: r => Some (PList [], r)
            | _ =>
                match parse_elements (parse_value f) f s' with
                | Some (l, r) => Some (PList l, r)
                | None => None
                end
            end
          else if N.eqb c 123 then
            match skip_ws s' with
            | 125%N :: r => Some (PDict [], r)
            | _ =>
                match parse_members (parse_value f) f s' with
                | Some (kvs, r) => Some (PDict (dict_of_pairs kvs), r)
                | None => None
                end
            end
          else if N.eqb c 110 then literal "null" PNone (c :: s')
          else if N.eqb c 116 then literal "true" (PBool true) (c :: s')
          else if N.eqb c 102 then literal "false" (PBool false) (c :: s')
          else
            match scan_int (c :: s') with
            | Some (z, r) => Some (PInt z, r)
            | None => None
            end
      end
  end.

(** A whole document: one value, with nothing but white space around it. *)
Definition loads (s : pystr) : option pyval :=
  match parse_value (S (length s)) s with
  | Some (v, r) =>
      match skip_ws r with
      | [] => Some v
      | _ => None
      end
  | None => None
  end.

(** ** [base64.b64encode]

    Three bytes make four characters of the standard alphabet; a last group
    of one or two bytes is padded with [=]. *)

Definition b64_alphabet : pystr :=
  u "ABCDEFGHIJKLMNOPQRSTUVWXYZabcdefghijklmnopqrstuvwxyz0123456789+/".

Definition b64_char (i : N) : codepoint := nth (N.to_nat i) b64_alphabet 61%N.

Fixpoint b64encode (bs : list byte) : pystr :=
  match bs with
  | [] => []
  | [a] =>
      let x := Byte.to_N a in
      [b64_char (x / 4); b64_char (x mod 4 * 16); 61; 61]%N
  | [a; b] =>
      let x := Byte.to_N a in
      let y := Byte.to_N b in
      [b64_char (x / 4); b64_char (x mod 4 * 16 + y / 16);
       b64_char (y mod 16 * 4); 61]%N
  | a :: b :: c :: rest =>
      let x := Byte.to_N a in
      let y := Byte.to_N b in
      let z := Byte.to_N c in
      b64_char (x / 4) :: b64_char (x mod 4 * 16 + y / 16)
      :: b64_char (y mod 16 * 4 + z / 64) :: b64_char (z mod 64)
      :: b64encode rest
  end%N.

(** Decoding, after RFC 4648: groups of four characters of the alphabet,
    padding in the last group only. *)
Definition b64_index (c : codepoint) : option N :=
  if (N.leb 65 c && N.leb c 90)%bool then Some (c - 65)%N
  else if (N.leb 97 c && N.leb c 122)%bool then Some (c - 71)%N
  else if (N.leb 48 c && N.leb c 57)%bool then Some (c + 4)%N
  else if N.eqb c 43 then Some 62%N
  else if N.eqb c 47 then Some 63%N
  else None.

Definition bytes_of (ns : list N) : option (list byte) :=
  fold_right (fun n acc =>
                match Byte.of_N n, acc with
                | Some b, Some bs => Some (b :: bs)
                | _, _ => None
                end) (Some []) ns.

Fixpoint b64decode (s : pystr) : option (list byte) :=
  match s with
  | [] => Some []
  | c1 :: c2 :: c3 :: c4 :: rest =>
      match b64_index c1, b64_index c2 with
      | Some i1, Some i2 =>
          if N.eqb c3 61 then
            match N.eqb c4 61, rest with
            | true, [] => bytes_of [i1 * 4 + i2 / 16]%N
            | _, _ => None
            end
          else
            match b64_index c3 with
            | None => None
            | Some i3 =>
                if N.eqb c4 61 then
                  match rest with
                  | [] => bytes_of [i1 * 4 + i2 / 16;
                                    i2 mod 16 * 16 + i3 / 4]%N
                  | _ => None
                  end
                else
                  match b64_index c4, b64decode rest with
                  | Some i4, Some bs =>
                      match bytes_of [i1 * 4 + i2 / 16;
                                      i2 mod 16 * 16 + i3 / 4;
                                      i3 mod 4 * 64 + i4]%N with
                      | Some g => Some (g ++ bs)
                      | None => None
                      end
                  | _, _ => None
                  end
            end
      | _, _ => None
      end
  | _ => None
  end.

(** ** The world and its effects *)

Record request : Type := {
  req_url : pystr;
  req_headers : list (pystr * pystr);
  req_json : pyval
}.

(** Of a response the module uses [response.json()] only, which raises when
    the body is no JSON. *)
Record response : Type := {
  resp_json : result pyval
}.

Inductive event : Type :=
| EvPost (r : request)
| EvOpen (path : pystr)
| EvPrint (v : pyval).

(** What the module does not control: the process environment (after
    [load_dotenv()] at import), the files, and the server behind
    [requests.post].  [trace] lists the effects performed so far, the
    oldest first. *)
Record world : Type := {
  environ : pystr -> option pystr;
  files : pystr -> result (list byte);
  server : request -> result response;
  trace : list event
}.

Definition log (e : event) (w : world) : world :=
  {| environ := environ w; files := files w; server := server w;
     trace := trace w ++ [e] |}.

(** A computation runs in a world and returns a value or raises, leaving
    the world with the effects performed up to that point. *)
Definition M (A : Type) : Type := world -> result A * world.

Definition ret {A} (a : A) : M A := fun w => (Ok a, w).

Definition bind {A B} (m : M A) (k : A -> M B) : M B :=
  fun w =>
    match m w with
    | (Ok a, w') => k a w'
    | (Raise e, w') => (Raise e, w')
    end.

Definition lift {A} (r : result A) : M A := fun w => (r, w).

Declare Scope monad_scope.
Delimit Scope monad_scope with monad.
Notation "x <- m ;; k" := (bind m (fun x => k))
  (at level 61, m at next level, right associativity) : monad_scope.
Notation "m ;;; k" := (bind m (fun _ => k))
  (at level 61, right associativity) : monad_scope.

(** [os.getenv(name)] *)
Definition os_getenv (name : pystr) : M (option pystr) :=
  fun w => (Ok (environ w name), w).

(** [requests.post(url, headers=headers, json=payload)] *)
Definition requests_post (url : pystr) (headers : list (pystr * pystr))
  (payload : pyval) : M response :=
  fun w =>
    let r := {| req_url := url; req_headers := headers;
                req_json := payload |} in
    (server w r, log (EvPost r) w).

(** [with open(path, "rb") as f: f.read()] *)
Definition open_read (path : pystr) : M (list byte) :=
  fun w => (files w path, log (EvOpen path) w).

(** [print(v)] *)
Definition print (v : pyval) : M unit :=
  fun w => (Ok tt, log (EvPrint v) w).

(** ** The functions of GA3.py *)

(** Lines 10-58.  The f-string is a literal, the argument, and a literal. *)
Definition sentiment_head : pystr :=
  lines
    [ [];
      q "import httpx";
      [];
      q "def analyze_sentiment():";
      q "    url = `https://api.openai.com/v1/chat/completions`";
      q "    headers = {";
      q "        `Authorization`: `Bearer dummy_api_key`,  # Replace with your actual API key";
      q "        `Content-Type`: `application/json`";
      q "    }";
      q "    ";
      q "    payload = {";
      q "        `model`: `gpt-4o-mini`,";
      q "        `messages`: [";
      q "            {`role`: `system`, `content`: `Analyze the sentiment of the following text and classify it as GOOD, BAD, or NEUTRAL.`},";
      q "            {`role`: `user`, `content`: `" ].

Definition sentiment_tail : pystr :=
  lines
    [ q "`}";
      q "        ]";
      q "    }";
      q "    ";
      q "    response = httpx.post(url, json=payload, headers=headers)";
      q "    response.raise_for_status()";
      q "    result = response.json()";
      q "    ";
      q "    print(result)";
      [];
      q "if __name__ == `__main__`:";
      q "    analyze_sentiment()";
      q "    " ].

Definition generate_sentiment_test_code (sample_meaningless_text : pystr)
  : pystr :=
  sentiment_head ++ sample_meaningless_text ++ sentiment_tail.

(** Lines 62-97. *)
Definition api_url : pystr :=
  u "http://aiproxy.sanand.workers.dev/openai/v1/chat/completions".

(** [f"Bearer {os.getenv('AIPROXY_TOKEN')}"]: an unset variable is [None]
    and prints as such. *)
Definition bearer (token : option pystr) : pystr :=
  u "Bearer " ++ match token with Some t => t | None => u "None" end.

Definition token_headers (token : option pystr) : list (pystr * pystr) :=
  [ (u "Authorization", bearer token);
    (u "Content-Type", u "application/json") ].

Definition token_payload (text : pystr) : pyval :=
  PDict [ (KStr (u "model"), PStr (u "gpt-4o-mini"));
          (KStr (u "messages"),
           PList [ PDict [ (KStr (u "role"), PStr (u "user"));
                           (KStr (u "content"), PStr text) ] ]) ].

Definition process_and_count_tokens (text : pystr) : M pyval :=
  (token <- os_getenv (u "AIPROXY_TOKEN") ;;
   response <- requests_post api_url (token_headers token)
                 (token_payload text) ;;
   response_json <- lift (resp_json response) ;;
   usage <- lift (getitem response_json (u "usage")) ;;
   prompt_tokens <- lift (getitem usage (u "prompt_tokens")) ;;
   ret prompt_tokens)%monad.

(** Lines 101-153.  The dict comprehension of line 127: for each item the
    key expression, then the value expression, then the insertion. *)
Fixpoint required_fields_from (items : list pyval) (acc : dict)
  : result dict :=
  match items with
  | [] => Ok acc
  | item :: rest =>
      (field <- getitem item (u "field") ;;
       type <- getitem item (u "type") ;;
       k <- to_key field ;;
       required_fields_from rest
         (dict_set acc k (PDict [(KStr (u "type"), type)])))%result
  end.

Definition address_body (required_fields : dict) : pyval :=
  PDict
    [ (KStr (u "model"), PStr (u "gpt-4o-mini"));
      (KStr (u "messages"),
       PList
         [ PDict [ (KStr (u "role"), PStr (u "system"));
                   (KStr (u "content"), PStr (u "Respond in JSON")) ];
           PDict [ (KStr (u "role"), PStr (u "user"));
                   (KStr (u "content"),
                    PStr (u "Generate 10 random addresses in the US")) ] ]);
      (KStr (u "response_format"),
       PDict
         [ (KStr (u "type"), PStr (u "object"));
           (KStr (u "properties"),
            PDict
              [ (KStr (u "addresses"),
                 PDict
                   [ (KStr (u "type"), PStr (u "array"));
                     (KStr (u "items"),
                      PDict
                        [ (KStr (u "type"), PStr (u "object"));
                          (KStr (u "properties"), PDict required_fields);
                          (KStr (u "required"),
                           PList (map key_val (dict_keys required_fields)));
                          (KStr (u "additionalProperties"), PBool false) ])
                   ]) ]);
           (KStr (u "required"), PList [PStr (u "addresses")]);
           (KStr (u "additionalProperties"), PBool false) ]) ].

Definition generate_openai_address_request (fields : pyval)
  : result pystr :=
  (items <- iterate fields ;;
   required_fields <- required_fields_from items [] ;;
   Ok (dumps (address_body required_fields)))%result.

(** Lines 157-205. *)
Definition data_url_prefix : pystr := u "data:image/png;base64,".

Definition image_body (image_base64_url : pystr) : pyval :=
  PDict
    [ (KStr (u "model"), PStr (u "gpt-4o-mini"));
      (KStr (u "messages"),
       PList
         [ PDict
             [ (KStr (u "role"), PStr (u "user"));
               (KStr (u "content"),
                PList
                  [ PDict [ (KStr (u "type"), PStr (u "text"));
                            (KStr (u "text"),
                             PStr (u "Extract text from this image.")) ];
                    PDict [ (KStr (u "type"), PStr (u "image_url"));
                            (KStr (u "image_url"),
                             PDict [ (KStr (u "url"),
                                      PStr image_base64_url) ]) ] ]) ] ]) ].

Definition base64_encoding (image_path : pystr) : M pystr :=
  (data <- open_read image_path ;;
   let base64_string := b64encode data in
   let image_base64_url := data_url_prefix ++ base64_string in
   ret (dumps (image_body image_base64_url)))%monad.

(** Lines 209-234. *)
Definition embedding_body (messages : pyval) : pyval :=
  PDict [ (KStr (u "model"), PStr (u "text-embedding-3-small"));
          (KStr (u "input"), messages) ].

Definition generate_embedding_request (messages : pyval) : pystr :=
  dumps (embedding_body messages).

(** Lines 238-265. *)
Definition return_most_similar_function : pystr :=
  lines
    [ [];
      q "import numpy as np";
      q "from itertools import combinations";
      [];
      q "def cosine_similarity(vec1, vec2):";
      q "    ```Compute cosine similarity between two vectors.```";
      q "    return np.dot(vec1, vec2) / (np.linalg.norm(vec1) * np.linalg.norm(vec2))";
      [];
      q "def most_similar(embeddings):";
      q "    ```Find the most similar pair of phrases based on cosine similarity.```";
      q "    phrases = list(embeddings.keys())  # Extract phrase keys";
      q "    max_similarity = -1  # Initialize lowest possible similarity";
      q "    most_similar_pair = None";
      [];
      q "    # Iterate over all unique pairs of phrases";
      q "    for phrase1, phrase2 in combinations(phrases, 2):";
      q "        similarity = cosine_similarity(np.array(embeddings[phrase1]), np.array(embeddings[phrase2]))";
      [];
      q "        if similarity > max_similarity:";
      q "            max_similarity = similarity";
      q "            most_similar_pair = (phrase1, phrase2) " ].

(** Lines 269-318 and 322-384. *)
Definition docs_similarity_api_endpoint : pystr :=
  u "https://tds-project-2-ga3-7.vercel.app/similarity".

Definition employee_queries_api_endpoint : pystr :=
  u "https://tds-project-2-ga3-8.vercel.app/execute".

(** Lines 388-395. *)
Definition generate_prompt : pystr :=
  q "I am designing an AI-based chatbot that correctly answers questions with `Yes` when required. To test this, I need an example interaction where the AI correctly says `Yes.` Provide a realistic example where a user asks a question, and the chatbot responds with `Yes.`".

(** Lines 399-432: the script.  [print] of a string writes the string; of
    another value, its [str]; the trace keeps the printed value. *)
Definition test_text : pystr :=
  u "Sx RF 8  sBx5X3K  ywpr55N4n s O ssI  6cjrU Qkn0sZx".

Definition text : pystr :=
  u "List only the valid English words from these: E, 46ZuR2ZxK, 8Ojovt, WSt4wQB, yYyTMKkpnp, tc1Mn2g2, wNKg7, XBxgkeIswj, osJIA, 8dUJ, reAe0zBk".

Definition fields : pyval :=
  PDict [ (KStr (u "state"), PDict [(KStr (u "type"), PStr (u "string"))]);
          (KStr (u "county"), PDict [(KStr (u "type"), PStr (u "string"))]);
          (KStr (u "longitude"),
           PDict [(KStr (u "type"), PStr (u "number"))]) ].

Definition image_path : pystr := u "daniel.png".

Definition messages : pyval :=
  PList
    [ PStr (u "Dear user, please verify your transaction code 10389 sent to daniel.putta@gramener.com");
      PStr (u "Dear user, please verify your transaction code 33454 sent to daniel.putta@gramener.com") ].

Definition main : M unit :=
  (print (PStr (u "=================Q1====================")) ;;;
   let result := generate_sentiment_test_code test_text in
   print (PStr result) ;;;
   print (PStr (u "=================Q2====================")) ;;;
   tokens <- process_and_count_tokens text ;;
   print tokens ;;;
   print (PStr (u "=================Q3====================")) ;;;
   body <- lift (generate_openai_address_request fields) ;;
   print (PStr body) ;;;
   print (PStr (u "=================Q4====================")) ;;;
   encoded <- base64_encoding image_path ;;
   print (PStr encoded) ;;;
   print (PStr (u "=================Q5====================")) ;;;
   print (PStr (generate_embedding_request messages)) ;;;
   print (PStr (u "=================Q6====================")) ;;;
   print (PStr return_most_similar_function) ;;;
   print (PStr (u "=================Q7====================")) ;;;
   print (PStr docs_similarity_api_endpoint) ;;;
   print (PStr (u "=================Q8====================")) ;;;
   print (PStr employee_queries_api_endpoint) ;;;
   print (PStr (u "=================Q9====================")) ;;;
   print (PStr generate_prompt))%monad.

(** ** What the statements below speak of *)

(** Values that a JSON text denotes one to one: strings of scalar values,
    and dicts whose keys are such strings, each once. *)
Definition str_key (k : pykey) : Prop :=
  exists s, k = KStr s /\ scalar_str s.

Inductive json_ok : pyval -> Prop :=
| ok_none : json_ok PNone
| ok_bool b : json_ok (PBool b)
| ok_int z : json_ok (PInt z)
| ok_str s : scalar_str s -> json_ok (PStr s)
| ok_list l : Forall json_ok l -> json_ok (PList l)
| ok_dict d :
    NoDup (dict_keys d) ->
    Forall (fun kv => str_key (fst kv) /\ json_ok (snd kv)) d ->
    json_ok (PDict d).

(** Running a computation: its outcome, and the effects it added. *)
Definition outcome {A} (m : M A) (w : world) : result A := fst (m w).

Definition effects {A} (m : M A) (w : world) : list event :=
  skipn (length (trace w)) (trace (snd (m w))).

(** The view of a list item that has string values under [field] and
    [type]: the pair of the two. *)
Definition field_spec (item : pyval) : option (pystr * pystr) :=
  match getitem item (u "field"), getitem item (u "type") with
  | Ok (PStr f), Ok (PStr t) => Some (f, t)
  | _, _ => None
  end.

(** The type that the last entry named [name] gives. *)
Fixpoint last_type (name : pystr) (specs : list (pystr * pystr))
  : option pystr :=
  match specs with
  | [] => None
  | (f, t) :: rest =>
      match last_type name rest with
      | Some t' => Some t'
      | None => if pystr_eqb f name then Some t else None
      end
  end.

(** The distinct names in the order of their first occurrence, those in
    [seen] left out. *)
Fixpoint distinct_names (seen : list pystr) (specs : list (pystr * pystr))
  : list pystr :=
  match specs with
  | [] => []
  | (f, _) :: rest =>
      if existsb (pystr_eqb f) seen then distinct_names seen rest
      else f :: distinct_names (seen ++ [f]) rest
  end.

(** The schema of one field: an object with the field's type. *)
Definition type_schema (t : pystr) : pyval :=
  PDict [(KStr (u "type"), PStr t)].

(** The dict that line 127 builds from entries with the given names and
    types, starting from [acc]. *)
Definition props_of (specs : list (pystr * pystr)) (acc : dict) : dict :=
  fold_left (fun d ft => dict_set d (KStr (fst ft)) (type_schema (snd ft)))
    specs acc.

(** The request that [process_and_count_tokens] sends in a world. *)
Definition token_request (w : world) (text : pystr) : request :=
  {| req_url := api_url;
     req_headers := token_headers (environ w (u "AIPROXY_TOKEN"));
     req_json := token_payload text |}.

(** Going down into a value by the names of members and the indices of
    items. *)
Inductive step : Type :=
| Key (k : string)
| Idx (n : nat).

Fixpoint at_path (v : pyval) (p : list step) : option pyval :=
  match p with
  | [] => Some v
  | Key k :: p' =>
      match v with
      | PDict d =>
          match dict_get d (KStr (u k)) with
          | Some x => at_path x p'
          | None => None
          end
      | _ => None
      end
  | Idx n :: p' =>
      match v with
      | PList l =>
          match nth_error l n with
          | Some x => at_path x p'
          | None => None
          end
      | _ => None
      end
  end.

(** A chat message, and where the schema of one address sits in the body
    of the address request. *)
Definition chat_message (role content : string) : pyval :=
  PDict [(KStr (u "role"), PStr (u role)); (KStr (u "content"), PStr (u content))].

Definition addresses_path : list step :=
  [Key "response_format"; Key "properties"; Key "addresses"].

Definition item_schema_path : list step := addresses_path ++ [Key "items"].

(** The entry that a field with a name and a type asks for. *)
Definition field_entry (ft : pystr * pystr) : pykey * pyval :=
  (KStr (fst ft), type_schema (snd ft)).

Definition starts_with (p s : pystr) : bool :=
  match match_prefix p s with
  | Some _ => true
  | None => false
  end.

Definition ends_with (p s : pystr) : bool :=
  starts_with (List.rev p) (List.rev s).

(** Where the data URL sits in the body of the image request. *)
Definition image_url_path : list step :=
  [Key "messages"; Idx 0; Key "content"; Idx 1; Key "image_url"; Key "url"].

(** A computation is pure when its outcome is the same in every world and
    it leaves every world as it was. *)
Definition pure_call {A} (m : M A) : Prop :=
  exists r, forall w, m w = (r, w).

(** A world with no environment variable set, one answer to every request
    and one content for every file, before any effect. *)
Definition still_world (reply : result response) (content : result (list byte))
  : world :=
  {| environ := fun _ => None;
     files := fun _ => content;
     server := fun _ => reply;
     trace := [] |}.

(** An answer whose JSON body reports [n] prompt tokens. *)
Definition usage_reply (n : Z) : result response :=
  Ok {| resp_json :=
          Ok (PDict [(KStr (u "usage"),
                      PDict [(KStr (u "prompt_tokens"), PInt n)])]) |}.

(** The numbers below [n], for checking a property of them by evaluation. *)
Definition N_range (n : nat) : list N := map N.of_nat (seq 0 n).

(** What a printed value starts with: no white space and no closing
    bracket. *)
Definition starts_value (s : pystr) : Prop :=
  match s with
  | c :: _ => is_ws c = false /\ c <> 93%N /\ c <> 125%N
  | [] => False
  end.

(** A value is read back when the reader, given the printed value and
    whatever follows it, returns the value and what follows. *)
Definition reads_back (v : pyval) : Prop :=
  forall level fuel rest,
    number_goes_on rest = false ->
    length (dumps_at level v ++ rest) < fuel ->
    parse_value fuel (dumps_at level v ++ rest) = Some (v, rest).

(** ** What the further statements speak of *)

(** Values that can be dict keys. *)
Definition hashable (v : pyval) : bool :=
  match v with
  | PList _ | PDict _ => false
  | _ => true
  end.



(** The body of the address request with a given [properties] and
    [required]; [address_body] is the case where [required] lists the keys
    of [properties]. *)
Definition address_body_with (properties : dict) (required : list pyval)
  : pyval :=
  PDict
    [ (KStr (u "model"), PStr (u "gpt-4o-mini"));
      (KStr (u "messages"),
       PList [ chat_message "system" "Respond in JSON";
               chat_message "user" "Generate 10 random addresses in the US" ]);
      (KStr (u "response_format"),
       PDict
         [ (KStr (u "type"), PStr (u "object"));
           (KStr (u "properties"),
            PDict
              [ (KStr (u "addresses"),
                 PDict
                   [ (KStr (u "type"), PStr (u "array"));
                     (KStr (u "items"),
                      PDict
                        [ (KStr (u "type"), PStr (u "object"));
                          (KStr (u "properties"), PDict properties);
                          (KStr (u "required"), PList required);
                          (KStr (u "additionalProperties"), PBool false) ])
                   ]) ]);
           (KStr (u "required"), PList [PStr (u "addresses")]);
           (KStr (u "additionalProperties"), PBool false) ]) ].

(** The view of an item with a string under [field] and any value under
    [type]. *)
Definition field_view (item : pyval) : option (pystr * pyval) :=
  match getitem item (u "field"), getitem item (u "type") with
  | Ok (PStr f), Ok t => Some (f, t)
  | _, _ => None
  end.



(** The schema of a field whose type is any value. *)
Definition type_entry (t : pyval) : pyval := PDict [(KStr (u "type"), t)].

(** The dict that line 127 builds from names and type values. *)
Definition entries_of (entries : list (pystr * pyval)) (acc : dict) : dict :=
  fold_left (fun d e => dict_set d (KStr (fst e)) (type_entry (snd e)))
    entries acc.

(** The text between the fixed parts of the generated test code. *)
Definition extract_text (code : pystr) : pystr :=
  firstn (length code - length sentiment_head - length sentiment_tail)
    (skipn (length sentiment_head) code).


(** Text of printable ASCII characters and newlines. *)
Definition ascii_char (c : codepoint) : bool :=
  (N.eqb c 10 || (N.leb 32 c && N.leb c 126))%bool.

Definition ascii_text (s : pystr) : Prop := Forall (fun c => ascii_char c = true) s.


(** Characters that [json.dumps] writes as they are. *)
Definition plain_char (c : codepoint) : bool :=
  (N.leb 32 c && N.leb c 126 && negb (N.eqb c 34) && negb (N.eqb c 92))%bool.

(* ================================================================== *)
(** * Part II: properties *)
(* ================================================================== *)

(** ** Strings and keys *)

Lemma pystr_eqb_eq a b : pystr_eqb a b = true <-> a = b.
Proof.
  revert b; induction a as [|x a IH]; intros [|y b]; simpl;
    try (split; [discriminate | discriminate]); try tauto.
  rewrite andb_true_iff, N.eqb_eq, IH.
  split; [intros [-> ->]; reflexivity | intros H; inversion H; auto].
Qed.

Lemma pystr_eqb_refl a : pystr_eqb a a = true.
Proof. apply pystr_eqb_eq; reflexivity. Qed.

Lemma key_eqb_str s t : key_eqb (KStr s) (KStr t) = pystr_eqb s t.
Proof. reflexivity. Qed.

Lemma key_eqb_str_eq s t : key_eqb (KStr s) (KStr t) = true <-> s = t.
Proof. rewrite key_eqb_str; apply pystr_eqb_eq. Qed.

Lemma key_eqb_str_neq s t : s <> t -> key_eqb (KStr s) (KStr t) = false.
Proof.
  intros H; destruct (key_eqb (KStr s) (KStr t)) eqn:E; auto.
  apply key_eqb_str_eq in E; contradiction.
Qed.

(** ** Checking a property of all small numbers by evaluation *)

Lemma forall_below (P : N -> bool) (n : nat) :
  forallb P (N_range n) = true ->
  forall x, (x < N.of_nat n)%N -> P x = true.
Proof.
  intros H x Hx.
  rewrite forallb_forall in H; apply H.
  unfold N_range; apply in_map_iff.
  exists (N.to_nat x); split; [apply N2Nat.id|].
  apply in_seq; lia.
Qed.

(** ** Induction on values *)

Lemma pyval_ind (P : pyval -> Prop) :
  P PNone ->
  (forall b, P (PBool b)) ->
  (forall z, P (PInt z)) ->
  (forall s, P (PStr s)) ->
  (forall l, Forall P l -> P (PList l)) ->
  (forall d, Forall (fun kv => P (snd kv)) d -> P (PDict d)) ->
  forall v, P v.
Proof.
  intros Hn Hb Hi Hs Hl Hd.
  refine (fix IH (v : pyval) : P v :=
            match v with
            | PNone => Hn
            | PBool b => Hb b
            | PInt z => Hi z
            | PStr s => Hs s
            | PList l =>
                Hl l ((fix all (l : list pyval) : Forall P l :=
                         match l with
                         | [] => Forall_nil P
                         | x :: l' => Forall_cons x (IH x) (all l')
                         end) l)
            | PDict d =>
                Hd d ((fix all (d : list (pykey * pyval))
                       : Forall (fun kv => P (snd kv)) d :=
                         match d with
                         | [] => Forall_nil _
                         | kv :: d' =>
                             @Forall_cons _ (fun kv => P (snd kv)) kv d'
                               (IH (snd kv)) (all d')
                         end) d)
            end).
Qed.

(** ** Escapes are read back *)

Local Ltac divmod := zify; Z.to_euclidean_division_equations; lia.

Lemma hex_val_digit d : (d < 16)%N -> hex_val (hex_digit d) = Some d.
Proof.
  intros H.
  pose (P := fun x => match hex_val (hex_digit x) with
                       | Some y => N.eqb x y
                       | None => false
                       end).
  assert (E : P d = true)
    by (apply (@forall_below P 16); [vm_compute; reflexivity | exact H]).
  unfold P in E; clear P.
  destruct (hex_val (hex_digit d)); [|discriminate].
  apply N.eqb_eq in E; subst; reflexivity.
Qed.

Lemma scan_hex4_hex4 n r :
  (n < 65536)%N -> scan_hex4 (hex4 n ++ r) = Some (n, r).
Proof.
  intros H. unfold hex4, scan_hex4. cbn [List.app].
  rewrite !N.shiftr_div_pow2.
  change (2 ^ 12)%N with 4096%N; change (2 ^ 8)%N with 256%N;
    change (2 ^ 4)%N with 16%N.
  rewrite !hex_val_digit by (apply N.mod_upper_bound; discriminate).
  do 2 f_equal.
  change 4096%N with (16 * 16 * 16)%N; change 256%N with (16 * 16)%N.
  rewrite <- !N.Div0.div_div.
  divmod.
Qed.

Lemma lor_high_surrogate x : (x < 1024)%N -> N.lor 55296 x = (55296 + x)%N.
Proof.
  intros H. apply N.eqb_eq.
  apply (@forall_below (fun x => N.eqb (N.lor 55296 x) (55296 + x)) 1024);
    [vm_compute; reflexivity | exact H].
Qed.

Lemma lor_low_surrogate x : (x < 1024)%N -> N.lor 56320 x = (56320 + x)%N.
Proof.
  intros H. apply N.eqb_eq.
  apply (@forall_below (fun x => N.eqb (N.lor 56320 x) (56320 + x)) 1024);
    [vm_compute; reflexivity | exact H].
Qed.

Lemma lor_shiftl_10 hi lo :
  (lo < 1024)%N -> N.lor (N.shiftl hi 10) lo = (hi * 1024 + lo)%N.
Proof.
  intros H.
  rewrite N.shiftl_mul_pow2. change (2 ^ 10)%N with 1024%N.
  assert (D : N.land (hi * 1024) lo = 0%N).
  { apply N.bits_inj_0; intros m.
    rewrite N.land_spec.
    destruct (N.lt_ge_cases m 10) as [Hm | Hm].
    - change 1024%N with (2 ^ 10)%N.
      rewrite N.mul_pow2_bits_low by exact Hm. reflexivity.
    - rewrite <- (N.mod_small lo (2 ^ 10)) by exact H.
      rewrite N.mod_pow2_bits_high by exact Hm.
      apply andb_false_r. }
  rewrite <- N.lxor_lor by exact D.
  symmetry; apply N.add_nocarry_lxor; exact D.
Qed.

Lemma surrogate_pair_read c tail :
  (65536 <= c < 1114112)%N ->
  let n := (c - 65536)%N in
  scan_escape_u
    (hex4 (N.lor 55296 (N.land (N.shiftr n 10) 1023))
     ++ escape_u (N.lor 56320 (N.land n 1023)) ++ tail)
  = Some (c, tail).
Proof.
  intros Hc n.
  assert (Hn : (n < 1048576)%N) by (unfold n; lia).
  assert (Ec : c = (n + 65536)%N) by (unfold n; lia).
  clearbody n.
  change 1023%N with (N.ones 10); rewrite !N.land_ones.
  rewrite N.shiftr_div_pow2. change (2 ^ 10)%N with 1024%N.
  assert (Hhi : (n / 1024 < 1024)%N) by divmod.
  assert (Hlo : (n mod 1024 < 1024)%N) by divmod.
  rewrite (N.mod_small (n / 1024)) by exact Hhi.
  rewrite lor_high_surrogate, lor_low_surrogate by assumption.
  unfold scan_escape_u.
  rewrite scan_hex4_hex4 by divmod.
  replace (N.leb 55296 (55296 + n / 1024) && N.leb (55296 + n / 1024) 56319)
    with true
    by (symmetry; apply andb_true_iff; split; apply N.leb_le; divmod).
  unfold escape_u; cbn [List.app].
  rewrite scan_hex4_hex4 by divmod.
  replace (N.leb 56320 (56320 + n mod 1024)
           && N.leb (56320 + n mod 1024) 57343)
    with true
    by (symmetry; apply andb_true_iff; split; apply N.leb_le; divmod).
  do 2 f_equal.
  replace (55296 + n / 1024 - 55296)%N with (n / 1024)%N by divmod.
  replace (56320 + n mod 1024 - 56320)%N with (n mod 1024)%N by divmod.
  rewrite lor_shiftl_10 by exact Hlo.
  divmod.
Qed.

Lemma scan_chars_escape c f tail :
  scalar c ->
  scan_chars (S f) (escape_char c ++ tail) =
  match scan_chars f tail with
  | Some (cs, r) => Some (c :: cs, r)
  | None => None
  end.
Proof.
  intros [Hlt Hsur]. unfold escape_char.
  destruct (N.eqb_spec c 92) as [-> | N92]; [reflexivity|].
  destruct (N.eqb_spec c 34) as [-> | N34]; [reflexivity|].
  destruct (N.eqb_spec c 8) as [-> | N8]; [reflexivity|].
  destruct (N.eqb_spec c 12) as [-> | N12]; [reflexivity|].
  destruct (N.eqb_spec c 10) as [-> | N10]; [reflexivity|].
  destruct (N.eqb_spec c 13) as [-> | N13]; [reflexivity|].
  destruct (N.eqb_spec c 9) as [-> | N9]; [reflexivity|].
  destruct (N.leb 32 c && N.leb c 126) eqn:Hp.
  - apply andb_true_iff in Hp; destruct Hp as [Hlo Hhi].
    apply N.leb_le in Hlo.
    cbn [List.app scan_chars].
    rewrite (proj2 (N.eqb_neq c 34) N34), (proj2 (N.eqb_neq c 92) N92).
    replace (N.ltb c 32) with false by (symmetry; apply N.ltb_ge; exact Hlo).
    reflexivity.
  - destruct (N.ltb_spec c 65536) as [Hs | Hs].
    + unfold escape_u. cbn [List.app scan_chars]. cbn [N.eqb Pos.eqb].
      unfold scan_escape_u. rewrite scan_hex4_hex4 by exact Hs.
      unfold is_surrogate in Hsur.
      replace (N.leb 55296 c && N.leb c 56319) with false; [reflexivity|].
      symmetry. apply andb_false_iff. apply andb_false_iff in Hsur.
      destruct Hsur as [E | E]; [left; exact E|].
      right. apply N.leb_gt. apply N.leb_gt in E. lia.
    + cbv zeta. unfold escape_u at 1. rewrite <- List.app_assoc.
      cbn [List.app scan_chars]. cbn [N.eqb Pos.eqb].
      rewrite surrogate_pair_read by lia. reflexivity.
Qed.

Lemma escape_char_nonempty c : escape_char c <> [].
Proof.
  unfold escape_char.
  repeat match goal with
         | |- (if ?b then _ else _) <> _ => destruct b; [discriminate|]
         end.
  cbv zeta. discriminate.
Qed.

Lemma scan_chars_encode cs :
  scalar_str cs ->
  forall fuel rest,
    length (encode_chars cs ++ 34%N :: rest) <= fuel ->
    scan_chars fuel (encode_chars cs ++ 34%N :: rest) = Some (cs, rest).
Proof.
  induction 1 as [|c cs Hc Hcs IH]; intros fuel rest Hf.
  - cbn in *. destruct fuel; [lia|]. reflexivity.
  - unfold encode_chars in *. cbn [flat_map] in *.
    rewrite <- List.app_assoc in *.
    destruct fuel as [|f].
    { pose proof (escape_char_nonempty c).
      destruct (escape_char c); [congruence | cbn in Hf; lia]. }
    rewrite scan_chars_escape by exact Hc.
    rewrite IH; [reflexivity|].
    pose proof (escape_char_nonempty c).
    rewrite List.length_app in Hf.
    destruct (escape_char c); [congruence | cbn in Hf; lia].
Qed.

(** ** Integers are read back *)

Lemma scan_digits_chars d rest :
  number_goes_on rest = false ->
  scan_digits (uint_chars d ++ rest) = (d, rest).
Proof.
  intros Hr.
  assert (Hnil : scan_digits rest = (Nil, rest)).
  { destruct rest as [|c r]; [reflexivity|].
    cbn in Hr |- *. destruct (digit_of c); [discriminate | reflexivity]. }
  induction d; cbn [uint_chars List.app]; try exact Hnil;
    cbn [scan_digits]; rewrite IHd; reflexivity.
Qed.

Lemma leading_zero_unorm d : unorm d = d -> leading_zero d = false.
Proof.
  intros H. destruct d as [|d'| | | | | | | | |]; try reflexivity.
  destruct d'; try reflexivity; exfalso.
  all: rewrite unorm_D0 in H; unfold unorm in H;
    match type of H with
    | match nzhead ?x with _ => _ end = _ =>
        pose proof (@nzhead_nonzero x) as Hz; destruct (nzhead x) eqn:E
    end; try discriminate; eapply Hz; rewrite <- H; reflexivity.
Qed.

Lemma scan_uint_chars d rest :
  unorm d = d ->
  number_goes_on rest = false ->
  scan_uint (uint_chars d ++ rest) = Some (d, rest).
Proof.
  intros Hd Hr. unfold scan_uint.
  rewrite scan_digits_chars by exact Hr.
  rewrite (leading_zero_unorm Hd), Hr. cbn [orb].
  destruct d; try reflexivity.
  exfalso. exact (unorm_nonnil Nil Hd).
Qed.

Lemma to_int_norm z : norm (Z.to_int z) = Z.to_int z.
Proof.
  rewrite <- (DecimalZ.of_to z) at 2. symmetry. apply DecimalZ.to_of.
Qed.

Lemma uint_chars_head d :
  d <> Nil ->
  exists n r, (n < 10)%N /\ uint_chars d = digit_char n :: r.
Proof.
  destruct d; intros H; try congruence; cbn [uint_chars];
    eexists; eexists; (split; [|reflexivity]); reflexivity.
Qed.

Lemma scan_int_unsigned c s :
  c <> 45%N ->
  scan_int (c :: s) =
  match scan_uint (c :: s) with
  | Some (d, r) => Some (Z.of_int (Pos d), r)
  | None => None
  end.
Proof.
  intros H. unfold scan_int.
  destruct c as [|p]; [reflexivity|].
  do 6 (destruct p as [p | p |]; try reflexivity).
  congruence.
Qed.

Lemma scan_int_repr z rest :
  number_goes_on rest = false ->
  scan_int (int_repr z ++ rest) = Some (z, rest).
Proof.
  intros Hr. unfold int_repr.
  pose proof (to_int_norm z) as Hn.
  pose proof (DecimalZ.of_to z) as Hz.
  destruct (Z.to_int z) as [d | d].
  - cbn [norm] in Hn. injection Hn as Hn.
    assert (Hne : d <> Nil) by (intros ->; exact (unorm_nonnil Nil Hn)).
    destruct (uint_chars_head Hne) as (n & r & Hlt & E).
    pose proof (scan_uint_chars rest Hn Hr) as Hs.
    rewrite E in *. cbn [List.app] in *.
    rewrite scan_int_unsigned by (unfold digit_char; lia).
    rewrite Hs, Hz. reflexivity.
  - unfold scan_int. cbn [List.app].
    cbn [norm] in Hn.
    destruct (nzhead d) eqn:En; try discriminate;
      injection Hn as Hn; rewrite <- En in Hn;
      assert (Hu : unorm d = d)
        by (rewrite unorm_nzhead by (rewrite En; discriminate);
            rewrite <- Hn at 2; rewrite En; reflexivity).
    all: rewrite scan_uint_chars by assumption; rewrite Hz; reflexivity.
Qed.

(** ** Values are read back *)

Local Ltac len_in H :=
  repeat first [ rewrite List.length_app in H
               | progress cbn [length] in H ].

Local Ltac len :=
  repeat match goal with
         | H : context [length _] |- _ => progress len_in H
         end;
  repeat first [ rewrite List.length_app | progress cbn [length] ];
  lia.

(** Lists of characters, as nested appends to the right. *)
Local Ltac flat :=
  repeat first [ progress cbn [List.app] in *
               | rewrite <- List.app_assoc in * ].

Lemma skip_ws_spaces n s : skip_ws (repeat 32%N n ++ s) = skip_ws s.
Proof. induction n; cbn [repeat List.app skip_ws]; auto. Qed.

Lemma skip_ws_newline_indent level s :
  skip_ws (newline_indent level ++ s) = skip_ws s.
Proof.
  unfold newline_indent. cbn [List.app skip_ws]. cbn [is_ws N.eqb Pos.eqb orb].
  apply skip_ws_spaces.
Qed.

Lemma skip_ws_idem s : skip_ws (skip_ws s) = skip_ws s.
Proof.
  induction s as [|c s IH]; [reflexivity|].
  cbn [skip_ws]. destruct (is_ws c) eqn:E; [exact IH|].
  cbn [skip_ws]. rewrite E. reflexivity.
Qed.

Lemma parse_value_skip fuel s :
  parse_value fuel (skip_ws s) = parse_value fuel s.
Proof. destruct fuel; [reflexivity|]. cbn [parse_value]. rewrite skip_ws_idem. reflexivity. Qed.

Lemma parse_value_indent fuel level s :
  parse_value fuel (newline_indent level ++ s) = parse_value fuel s.
Proof.
  rewrite <- parse_value_skip, skip_ws_newline_indent. apply parse_value_skip.
Qed.

Lemma parse_value_space fuel s :
  parse_value fuel (32%N :: s) = parse_value fuel s.
Proof. rewrite <- parse_value_skip. cbn [skip_ws is_ws N.eqb Pos.eqb orb]. apply parse_value_skip. Qed.

Lemma to_int_digits z :
  match Z.to_int z with Pos d | Neg d => d <> Nil end.
Proof.
  pose proof (to_int_norm z) as H.
  destruct (Z.to_int z) as [d | d]; cbn [norm] in H.
  - injection H as H. intros ->. exact (unorm_nonnil Nil H).
  - intros ->. discriminate H.
Qed.

Lemma starts_value_dumps level v rest :
  starts_value (dumps_at level v ++ rest).
Proof.
  destruct v as [ | [|] | z | s | [|x l] | [|kv d] ];
    try (cbn; repeat split; discriminate).
  cbn [dumps_at]. unfold int_repr.
  pose proof (to_int_digits z) as H.
  destruct (Z.to_int z) as [d | d].
  - destruct (uint_chars_head H) as (n & r & Hn & ->).
    cbn [List.app starts_value]. unfold digit_char.
    assert (C : forall m, (m < 10)%N ->
                is_ws (48 + m) = false /\ (48 + m)%N <> 93%N /\ (48 + m)%N <> 125%N).
    { intros m Hm. repeat split; try lia.
      unfold is_ws. repeat rewrite orb_false_iff.
      repeat split; apply N.eqb_neq; lia. }
    apply C; exact Hn.
  - cbn. repeat split; discriminate.
Qed.

Lemma skip_ws_start s : starts_value s -> skip_ws s = s.
Proof.
  destruct s as [|c s]; [contradiction|].
  intros (H & _). cbn [skip_ws]. rewrite H. reflexivity.
Qed.

(** ** Dicts built from distinct string keys *)

Lemma dict_set_fresh (d : dict) k v :
  Forall str_key (dict_keys d) -> str_key k -> ~ In k (dict_keys d) ->
  dict_set d k v = d ++ [(k, v)].
Proof.
  intros Hd (s & -> & _) Hn.
  induction d as [|[k' v'] d IH]; [reflexivity|].
  cbn [dict_keys map fst] in *. inversion Hd as [|? ? (s' & -> & _) Hd']; subst.
  cbn [dict_set List.app].
  rewrite key_eqb_str_neq by (intros ->; apply Hn; left; reflexivity).
  f_equal. apply IH; [exact Hd' | intros Hin; apply Hn; right; exact Hin].
Qed.

Lemma dict_of_pairs_distinct (d : dict) :
  Forall str_key (dict_keys d) -> NoDup (dict_keys d) ->
  dict_of_pairs d = d.
Proof.
  unfold dict_of_pairs.
  enough (G : forall acc : dict,
             Forall str_key (dict_keys (acc ++ d)) ->
             NoDup (dict_keys (acc ++ d)) ->
             fold_left (fun a kv => dict_set a (fst kv) (snd kv)) d acc
             = acc ++ d)
    by (intros; apply (G []); assumption).
  induction d as [|[k v] d IH]; intros acc Hk Hn.
  - cbn. symmetry; apply List.app_nil_r.
  - cbn [fold_left fst snd].
    unfold dict_keys in *. rewrite map_app in Hk, Hn.
    cbn [map fst] in Hk, Hn.
    pose proof (NoDup_remove_2 _ _ _ Hn) as Hfresh.
    apply Forall_app in Hk as Hk'. destruct Hk' as [Hacc Hrest].
    inversion Hrest as [|? ? Hkk Hd]; subst.
    rewrite dict_set_fresh;
      [ | exact Hacc | exact Hkk
        | intros Hin; apply Hfresh; apply in_or_app; left; exact Hin ].
    rewrite IH.
    + rewrite <- List.app_assoc. reflexivity.
    + rewrite <- List.app_assoc, map_app. exact Hk.
    + rewrite <- List.app_assoc, map_app. exact Hn.
Qed.

Lemma number_ends_at_indent level s :
  number_goes_on (newline_indent level ++ s) = false.
Proof. reflexivity. Qed.

Lemma parse_elements_join l :
  Forall reads_back l -> l <> [] ->
  forall level f f2 rest,
    let s := join_items (S level) (map (dumps_at (S level)) l)
             ++ newline_indent level ++ 93%N :: rest in
    length s < f -> length s <= f2 ->
    parse_elements (parse_value f) f2 s = Some (l, rest).
Proof.
  induction 1 as [|x l Hx Hl IH]; [congruence|].
  intros _ level f f2 rest s Hf Hf2. subst s.
  cbn [map join_items] in *.
  flat.
  destruct f2 as [|f2]; [unfold newline_indent in Hf2; cbn in Hf2; lia|].
  cbn [parse_elements]. rewrite parse_value_indent.
  destruct l as [|y l'].
  - cbn [List.app map] in *.
    rewrite Hx; [ | apply number_ends_at_indent | len ].
    rewrite skip_ws_newline_indent. reflexivity.
  - remember (y :: l') as l2 eqn:El.
    assert (Hne : l2 <> []) by (subst; discriminate).
    replace (match map (dumps_at (S level)) l2 with
             | [] => []
             | _ :: _ => 44%N :: join_items (S level) (map (dumps_at (S level)) l2)
             end)
      with (44%N :: join_items (S level) (map (dumps_at (S level)) l2)) in *
      by (subst; reflexivity).
    cbn [List.app] in *.
    rewrite Hx; [ | reflexivity | len ].
    cbn [skip_ws is_ws N.eqb Pos.eqb orb].
    rewrite (IH Hne level f f2 rest); [reflexivity | len | len].
Qed.

Lemma parse_members_join (d : dict) :
  Forall (fun kv => str_key (fst kv) /\ reads_back (snd kv)) d -> d <> [] ->
  forall level f f2 rest,
    let s := join_items (S level)
               (map (fun kv => encode_basestring_ascii (key_str (fst kv))
                               ++ u ": " ++ dumps_at (S level) (snd kv)) d)
             ++ newline_indent level ++ 125%N :: rest in
    length s < f -> length s <= f2 ->
    parse_members (parse_value f) f2 s = Some (d, rest).
Proof.
  induction 1 as [|[k x] d Hkv Hd IH]; [congruence|].
  cbn [fst snd] in Hkv. destruct Hkv as [(key & -> & Hkey) Hx].
  intros _ level f f2 rest s Hf Hf2. subst s.
  cbn [map join_items fst snd key_str] in *.
  unfold encode_basestring_ascii in *.
  change (u ": ") with [58; 32]%N in *.
  flat.
  destruct f2 as [|f2]; [unfold newline_indent in Hf2; cbn in Hf2; lia|].
  cbn [parse_members]. rewrite skip_ws_newline_indent.
  cbn [skip_ws is_ws N.eqb Pos.eqb orb].
  unfold scan_string.
  rewrite scan_chars_encode; [ | exact Hkey | apply le_n ].
  cbn [skip_ws is_ws N.eqb Pos.eqb orb].
  rewrite parse_value_space.
  destruct d as [|kv d'].
  - cbn [List.app map] in *.
    rewrite Hx; [ | apply number_ends_at_indent | len ].
    rewrite skip_ws_newline_indent. reflexivity.
  - remember (kv :: d') as d2 eqn:El.
    assert (Hne : d2 <> []) by (subst; discriminate).
    match goal with
    | |- context [match map ?g d2 with [] => [] | _ :: _ => 44%N :: ?j end] =>
        replace (match map g d2 with [] => [] | _ :: _ => 44%N :: j end)
          with (44%N :: j) in * by (subst; reflexivity)
    end.
    cbn [List.app] in *.
    rewrite Hx; [ | reflexivity | len ].
    cbn [skip_ws is_ws N.eqb Pos.eqb orb].
    specialize (IH Hne level f f2 rest). cbv zeta in IH.
    unfold encode_basestring_ascii in IH.
    change (u ": ") with [58; 32]%N in IH.
    rewrite IH; [reflexivity | len | len].
Qed.

Lemma not_close_bracket {A} (s : pystr) (X : pystr -> A) (Y : A) :
  starts_value s ->
  match s with 93%N :: r => X r | _ => Y end = Y.
Proof.
  destruct s as [|c t]; [reflexivity|]. intros (_ & H & _).
  destruct c as [|p]; [reflexivity|].
  do 7 (destruct p as [p | p |]; try reflexivity).
  congruence.
Qed.

Lemma not_close_brace {A} (s : pystr) (X : pystr -> A) (Y : A) :
  starts_value s ->
  match s with 125%N :: r => X r | _ => Y end = Y.
Proof.
  destruct s as [|c t]; [reflexivity|]. intros (_ & _ & H).
  destruct c as [|p]; [reflexivity|].
  do 7 (destruct p as [p | p |]; try reflexivity).
  congruence.
Qed.

Lemma int_repr_head z rest :
  exists c t, int_repr z ++ rest = c :: t /\
              (c = 45%N \/ (48 <= c <= 57)%N).
Proof.
  unfold int_repr. pose proof (to_int_digits z) as H.
  destruct (Z.to_int z) as [d | d].
  - destruct (uint_chars_head H) as (n & r & Hn & ->).
    eexists; eexists; split; [reflexivity|]. right. unfold digit_char; lia.
  - eexists; eexists; split; [reflexivity|]. left; reflexivity.
Qed.

Theorem dumps_reads_back v : json_ok v -> reads_back v.
Proof.
  induction v as [ | b | z | s | l IH | d IH ] using pyval_ind;
    intros Hok level fuel rest Hr Hf;
    (destruct fuel as [|f]; [lia|]).
  - reflexivity.
  - destruct b; reflexivity.
  - cbn [dumps_at] in *.
    pose proof (@scan_int_repr z rest Hr) as Hs.
    destruct (int_repr_head z rest) as (c & t & E & Hc).
    rewrite E in *. cbn [parse_value].
    assert (Hw : is_ws c = false).
    { unfold is_ws. repeat rewrite orb_false_iff.
      repeat split; apply N.eqb_neq; lia. }
    cbn [skip_ws]. rewrite Hw.
    repeat match goal with
           | |- context [N.eqb c ?k] =>
               destruct (N.eqb_spec c k); [exfalso; lia|]
           end.
    rewrite Hs. reflexivity.
  - cbn [dumps_at] in *. unfold encode_basestring_ascii in *.
    flat.
    cbn [parse_value skip_ws is_ws N.eqb Pos.eqb orb].
    unfold scan_string. inversion Hok; subst.
    rewrite scan_chars_encode; [reflexivity | assumption | apply le_n].
  - inversion Hok as [ | | | | ? Hl | ]; subst.
    destruct l as [|x l]; [reflexivity|].
    remember (x :: l) as l2 eqn:El.
    assert (Hne : l2 <> []) by (subst; discriminate).
    assert (Hall : Forall reads_back l2).
    { clear - IH Hl. induction IH; inversion Hl; subst; constructor; auto. }
    replace (dumps_at level (PList l2))
      with (91%N :: join_items (S level) (map (dumps_at (S level)) l2)
            ++ newline_indent level ++ [93%N]) in *
      by (subst; reflexivity).
    flat.
    cbn [parse_value skip_ws is_ws N.eqb Pos.eqb orb].
    rewrite not_close_bracket.
    + rewrite (@parse_elements_join l2 Hall Hne level f f rest);
        [reflexivity | len | len].
    + subst l2. cbn [map join_items].
      repeat rewrite <- List.app_assoc.
      rewrite skip_ws_newline_indent.
      rewrite skip_ws_start by apply starts_value_dumps.
      apply starts_value_dumps.
  - inversion Hok as [ | | | | | ? Hnd Hd ]; subst.
    destruct d as [|kv d]; [reflexivity|].
    remember (kv :: d) as d2 eqn:El.
    assert (Hne : d2 <> []) by (subst; discriminate).
    assert (Hall : Forall (fun kv => str_key (fst kv) /\ reads_back (snd kv)) d2).
    { clear - IH Hd. induction IH; inversion Hd; subst; constructor;
        [tauto | auto]. }
    replace (dumps_at level (PDict d2))
      with (123%N :: join_items (S level)
              (map (fun kv => encode_basestring_ascii (key_str (fst kv))
                              ++ u ": " ++ dumps_at (S level) (snd kv)) d2)
            ++ newline_indent level ++ [125%N]) in *
      by (subst; reflexivity).
    flat.
    cbn [parse_value skip_ws is_ws N.eqb Pos.eqb orb].
    rewrite not_close_brace.
    + rewrite (@parse_members_join d2 Hall Hne level f f rest);
        [ | len | len].
      rewrite dict_of_pairs_distinct; [reflexivity | | exact Hnd].
      clear - Hd. unfold dict_keys. apply Forall_map.
      eapply Forall_impl; [|exact Hd]. cbn. tauto.
    + subst d2. cbn [map join_items].
      repeat rewrite <- List.app_assoc.
      rewrite skip_ws_newline_indent.
      destruct kv as [k x]. cbn [fst key_str].
      unfold encode_basestring_ascii. cbn. repeat split; discriminate.
Qed.

Theorem loads_dumps v : json_ok v -> loads (dumps v) = Some v.
Proof.
  intros H. unfold loads, dumps.
  pose proof (@dumps_reads_back v H 0 (S (length (dumps_at 0 v))) []) as R.
  rewrite List.app_nil_r in R. rewrite R; [reflexivity | reflexivity | lia].
Qed.

(** ** Base64 is decoded back *)

Lemma b64_index_char i :
  (i < 64)%N ->
  b64_index (b64_char i) = Some i /\ N.eqb (b64_char i) 61 = false.
Proof.
  intros H.
  pose (P := fun i => match b64_index (b64_char i) with
                      | Some j => N.eqb i j && negb (N.eqb (b64_char i) 61)
                      | None => false
                      end).
  assert (E : P i = true)
    by (apply (@forall_below P 64); [vm_compute; reflexivity | exact H]).
  unfold P in E; clear P.
  destruct (b64_index (b64_char i)); [|discriminate].
  apply andb_true_iff in E. destruct E as [E1 E2].
  apply N.eqb_eq in E1. apply negb_true_iff in E2. subst. auto.
Qed.

Lemma list_ind3 {A} (P : list A -> Prop) :
  P [] ->
  (forall a, P [a]) ->
  (forall a b, P [a; b]) ->
  (forall a b c l, P l -> P (a :: b :: c :: l)) ->
  forall l, P l.
Proof.
  intros H0 H1 H2 H3.
  refine (fix IH (l : list A) : P l :=
            match l with
            | [] => H0
            | [a] => H1 a
            | [a; b] => H2 a b
            | a :: b :: c :: l' => H3 a b c l' (IH l')
            end).
Qed.

Local Ltac sextets :=
  repeat match goal with
         | |- context [b64_index (b64_char ?i)] =>
             let H := fresh in
             assert (H : (i < 64)%N) by divmod;
             destruct (b64_index_char H) as [-> ?]; clear H
         end.

Local Ltac not_pad :=
  repeat match goal with
         | |- context [N.eqb (b64_char ?i) 61] =>
             let H := fresh in
             assert (H : (i < 64)%N) by divmod;
             destruct (b64_index_char H) as [_ ->]; clear H
         end.

Theorem b64decode_b64encode bs : b64decode (b64encode bs) = Some bs.
Proof.
  induction bs as [ | a | a b | a b c bs IH ] using list_ind3.
  - reflexivity.
  - pose proof (Byte.to_N_bounded a) as Ha.
    cbn [b64encode]. cbv zeta. cbn [b64decode].
    sextets. cbn [N.eqb Pos.eqb bytes_of fold_right].
    replace (Byte.to_N a / 4 * 4 + Byte.to_N a mod 4 * 16 / 16)%N
      with (Byte.to_N a) by divmod.
    rewrite Byte.of_to_N. reflexivity.
  - pose proof (Byte.to_N_bounded a) as Ha.
    pose proof (Byte.to_N_bounded b) as Hb.
    cbn [b64encode]. cbv zeta. cbn [b64decode].
    sextets. not_pad. cbn [N.eqb Pos.eqb bytes_of fold_right].
    set (x := Byte.to_N a) in *. set (y := Byte.to_N b) in *.
    replace (x / 4 * 4 + (x mod 4 * 16 + y / 16) / 16)%N with x by divmod.
    replace ((x mod 4 * 16 + y / 16) mod 16 * 16 + y mod 16 * 4 / 4)%N
      with y by divmod.
    subst x y. rewrite !Byte.of_to_N. reflexivity.
  - pose proof (Byte.to_N_bounded a) as Ha.
    pose proof (Byte.to_N_bounded b) as Hb.
    pose proof (Byte.to_N_bounded c) as Hc.
    cbn [b64encode]. cbv zeta. cbn [b64decode].
    sextets. not_pad. rewrite IH. cbn [bytes_of fold_right].
    set (x := Byte.to_N a) in *. set (y := Byte.to_N b) in *.
    set (z := Byte.to_N c) in *.
    replace (x / 4 * 4 + (x mod 4 * 16 + y / 16) / 16)%N with x by divmod.
    replace ((x mod 4 * 16 + y / 16) mod 16 * 16 + (y mod 16 * 4 + z / 64) / 4)%N
      with y by divmod.
    replace ((y mod 16 * 4 + z / 64) mod 4 * 64 + z mod 64)%N with z by divmod.
    subst x y z. rewrite !Byte.of_to_N. reflexivity.
Qed.

(** ** Literals and base64 text are strings of scalar values *)

Lemma scalar_small c : (c < 256)%N -> scalar c.
Proof.
  intros H. split; [lia|].
  unfold is_surrogate. apply andb_false_iff. left. apply N.leb_gt. lia.
Qed.

Lemma scalar_u s : scalar_str (u s).
Proof.
  unfold scalar_str, u. apply Forall_map.
  apply Forall_forall. intros a _. apply scalar_small, N_ascii_bounded.
Qed.

Lemma b64_char_small i : (b64_char i < 256)%N.
Proof.
  destruct (N.lt_ge_cases i 64) as [H | H].
  - apply N.ltb_lt.
    apply (@forall_below (fun i => N.ltb (b64_char i) 256) 64);
      [vm_compute; reflexivity | exact H].
  - unfold b64_char. rewrite nth_overflow; [reflexivity|].
    change (length b64_alphabet) with 64%nat. lia.
Qed.

Lemma scalar_b64encode bs : scalar_str (b64encode bs).
Proof.
  induction bs as [ | a | a b | a b c bs IH ] using list_ind3;
    cbn [b64encode]; cbv zeta;
    repeat (constructor; [apply scalar_small; first [apply b64_char_small | reflexivity]|]);
    try constructor; exact IH.
Qed.

(** ** The dict comprehension of [generate_openai_address_request] *)

Lemma field_spec_getitem item f t :
  field_spec item = Some (f, t) ->
  getitem item (u "field") = Ok (PStr f) /\
  getitem item (u "type") = Ok (PStr t).
Proof.
  unfold field_spec.
  destruct (getitem item (u "field")) as [[ | | | f' | | ] | ]; try discriminate.
  destruct (getitem item (u "type")) as [[ | | | t' | | ] | ]; try discriminate.
  intros H; inversion H; auto.
Qed.

Lemma required_fields_from_specs items :
  forall specs acc,
    map field_spec items = map Some specs ->
    required_fields_from items acc = Ok (props_of specs acc).
Proof.
  induction items as [|item items IH]; intros [|[f t] specs] acc H;
    try discriminate; [reflexivity|].
  cbn [map] in H. injection H as Hi Hrest.
  destruct (field_spec_getitem _ Hi) as [Hf Ht].
  cbn [required_fields_from]. rewrite Hf, Ht. cbn [rbind to_key].
  rewrite (IH specs _ Hrest). reflexivity.
Qed.

Lemma pystr_eqb_false a b : pystr_eqb a b = false <-> a <> b.
Proof.
  rewrite <- pystr_eqb_eq. destruct (pystr_eqb a b); split; congruence.
Qed.

Lemma pystr_eqb_sym a b : pystr_eqb a b = pystr_eqb b a.
Proof.
  destruct (pystr_eqb a b) eqn:E.
  - apply pystr_eqb_eq in E. subst. symmetry. apply pystr_eqb_refl.
  - apply pystr_eqb_false in E. symmetry. apply pystr_eqb_false. congruence.
Qed.

Lemma existsb_pystr f seen : existsb (pystr_eqb f) seen = true <-> In f seen.
Proof.
  rewrite existsb_exists. split.
  - intros (x & Hx & E). apply pystr_eqb_eq in E. subst. exact Hx.
  - intros H. exists f. split; [exact H | apply pystr_eqb_refl].
Qed.

Lemma dict_set_str (d : dict) f v :
  forall seen,
    dict_keys d = map KStr seen ->
    dict_keys (dict_set d (KStr f) v)
    = map KStr (if existsb (pystr_eqb f) seen then seen else seen ++ [f]) /\
    forall g, dict_get (dict_set d (KStr f) v) (KStr g)
              = if pystr_eqb f g then Some v else dict_get d (KStr g).
Proof.
  induction d as [|[k w] d IH]; intros [|h seen] Hk; try discriminate.
  - split; [reflexivity|]. intros g. cbn [dict_set dict_get].
    rewrite key_eqb_str. reflexivity.
  - cbn [dict_keys map fst] in Hk. injection Hk as -> Hk.
    destruct (IH seen Hk) as [I1 I2]. clear IH.
    cbn [dict_set existsb]. rewrite key_eqb_str, (pystr_eqb_sym f h).
    destruct (pystr_eqb h f) eqn:E; cbn [orb].
    + apply pystr_eqb_eq in E. subst h. split.
      * cbn [dict_keys map fst]. f_equal. exact Hk.
      * intros g. cbn [dict_get]. rewrite key_eqb_str.
        destruct (pystr_eqb f g); reflexivity.
    + split.
      * cbn [dict_keys map fst]. fold (dict_keys (dict_set d (KStr f) v)).
        rewrite I1. destruct (existsb (pystr_eqb f) seen); reflexivity.
      * intros g. cbn [dict_get]. rewrite key_eqb_str, I2.
        destruct (pystr_eqb h g) eqn:E2; [|reflexivity].
        apply pystr_eqb_eq in E2. subst g.
        rewrite (pystr_eqb_sym f h), E. reflexivity.
Qed.

Lemma props_of_spec specs :
  forall (acc : dict) seen,
    dict_keys acc = map KStr seen ->
    dict_keys (props_of specs acc)
    = map KStr (seen ++ distinct_names seen specs) /\
    forall g, dict_get (props_of specs acc) (KStr g)
              = match last_type g specs with
                | Some t => Some (type_schema t)
                | None => dict_get acc (KStr g)
                end.
Proof.
  induction specs as [|[f t] specs IH]; intros acc seen Hk.
  - cbn. rewrite List.app_nil_r. auto.
  - destruct (@dict_set_str acc f (type_schema t) seen Hk) as [S1 S2].
    destruct (IH _ _ S1) as [I1 I2]. clear IH.
    unfold props_of in *. cbn [fold_left fst snd]. split.
    + rewrite I1. cbn [distinct_names].
      destruct (existsb (pystr_eqb f) seen); [reflexivity|].
      rewrite <- List.app_assoc. reflexivity.
    + intros g. rewrite I2, S2. cbn [last_type].
      destruct (last_type g specs); [reflexivity|].
      destruct (pystr_eqb f g); reflexivity.
Qed.

Lemma distinct_names_in specs :
  forall seen g,
    In g (distinct_names seen specs) <-> In g (map fst specs) /\ ~ In g seen.
Proof.
  induction specs as [|[f t] specs IH]; intros seen g; cbn [distinct_names map fst].
  - cbn. tauto.
  - destruct (existsb (pystr_eqb f) seen) eqn:E.
    + apply existsb_pystr in E. rewrite IH. cbn [In].
      split; [tauto|]. intros [[-> | H] Hn]; [contradiction | tauto].
    + assert (Hf : ~ In f seen)
        by (intros H; apply existsb_pystr in H; congruence).
      cbn [In]. rewrite IH, in_app_iff. cbn [In].
      destruct (pystr_eqb f g) eqn:Eg.
      * apply pystr_eqb_eq in Eg. subst g. tauto.
      * apply pystr_eqb_false in Eg. tauto.
Qed.

Lemma distinct_names_nodup specs :
  forall seen, NoDup seen -> NoDup (seen ++ distinct_names seen specs).
Proof.
  induction specs as [|[f t] specs IH]; intros seen Hs; cbn [distinct_names].
  - rewrite List.app_nil_r. exact Hs.
  - destruct (existsb (pystr_eqb f) seen) eqn:E; [auto|].
    assert (Hf : ~ In f seen)
      by (intros H; apply existsb_pystr in H; congruence).
    replace (seen ++ f :: distinct_names (seen ++ [f]) specs)
      with ((seen ++ [f]) ++ distinct_names (seen ++ [f]) specs)
      by (rewrite <- List.app_assoc; reflexivity).
    apply IH. apply NoDup_app; [exact Hs | repeat constructor; intros [] | ].
    intros x Hx [<- | []]. contradiction.
Qed.

Lemma last_type_in specs g t : last_type g specs = Some t -> In (g, t) specs.
Proof.
  induction specs as [|[f t0] specs IH]; cbn [last_type]; [discriminate|].
  destruct (last_type g specs) as [t'|].
  - intros H. right. apply IH. exact H.
  - destruct (pystr_eqb f g) eqn:E; [|discriminate].
    apply pystr_eqb_eq in E. intros H. inversion H; subst. left; reflexivity.
Qed.

Lemma last_type_some specs f t :
  In (f, t) specs -> exists t', last_type f specs = Some t'.
Proof.
  induction specs as [|[f0 t0] specs IH]; [intros []|].
  intros [H | H]; cbn [last_type].
  - inversion H; subst. destruct (last_type f specs); [eauto|].
    rewrite pystr_eqb_refl. eauto.
  - destruct (IH H) as [t' ->]. eauto.
Qed.

Lemma KStr_nodup names : NoDup names -> NoDup (map KStr names).
Proof.
  induction 1 as [|x l Hx Hl IH]; cbn [map]; constructor; [|exact IH].
  intros Hin. apply in_map_iff in Hin. destruct Hin as (y & E & Hy).
  inversion E; subst. contradiction.
Qed.

(** ** The request bodies are JSON values *)

Local Ltac distinct_keys :=
  cbn [dict_keys map fst];
  repeat (constructor; [vm_compute; intuition discriminate|]);
  constructor.

Local Ltac literal_key :=
  cbn [fst]; eexists; split; [reflexivity | apply scalar_u].

Lemma json_ok_member k v (d : dict) :
  json_ok v ->
  Forall (fun kv => str_key (fst kv) /\ json_ok (snd kv)) d ->
  Forall (fun kv => str_key (fst kv) /\ json_ok (snd kv)) ((KStr (u k), v) :: d).
Proof. intros Hv Hd. constructor; [split; [literal_key | exact Hv] | exact Hd]. Qed.

Lemma json_ok_literal s : json_ok (PStr (u s)).
Proof. constructor. apply scalar_u. Qed.

Local Ltac members :=
  repeat first [ assumption
               | apply Forall_nil
               | apply json_ok_member
               | apply json_ok_literal
               | apply ok_bool
               | apply Forall_cons
               | apply ok_list
               | apply ok_dict; [distinct_keys|] ].

Lemma dict_set_entries (P : pyval -> Prop) (d : dict) k v :
  Forall (fun kv => str_key (fst kv) /\ P (snd kv)) d ->
  str_key k -> P v ->
  Forall (fun kv => str_key (fst kv) /\ P (snd kv)) (dict_set d k v).
Proof.
  intros Hd Hk Hv. induction Hd as [|[k' v'] d [H1 H2] Hd IH]; cbn [dict_set].
  - constructor; [split; assumption | constructor].
  - destruct (key_eqb k' k); constructor; auto.
Qed.

Lemma json_ok_type_schema t : scalar_str t -> json_ok (type_schema t).
Proof.
  intros H. unfold type_schema. apply ok_dict; [distinct_keys|].
  apply json_ok_member; [constructor; exact H | constructor].
Qed.

Lemma props_of_entries specs :
  Forall (fun ft => scalar_str (fst ft) /\ scalar_str (snd ft)) specs ->
  forall acc : dict,
    Forall (fun kv => str_key (fst kv) /\ json_ok (snd kv)) acc ->
    Forall (fun kv => str_key (fst kv) /\ json_ok (snd kv)) (props_of specs acc).
Proof.
  unfold props_of.
  induction 1 as [|[f t] specs [Hf Ht] Hs IH]; intros acc Ha; [exact Ha|].
  cbn [fold_left fst snd] in *. apply IH.
  apply dict_set_entries;
    [exact Ha | exists f; auto | apply json_ok_type_schema; exact Ht].
Qed.

Lemma json_ok_props specs :
  Forall (fun ft => scalar_str (fst ft) /\ scalar_str (snd ft)) specs ->
  json_ok (PDict (props_of specs [])) /\
  json_ok (PList (map key_val (dict_keys (props_of specs [])))).
Proof.
  intros Hs.
  destruct (@props_of_spec specs [] [] eq_refl) as [K _].
  pose proof (@props_of_entries specs Hs [] (Forall_nil _)) as E.
  split.
  - apply ok_dict; [|exact E].
    rewrite K. apply KStr_nodup. apply (distinct_names_nodup specs (NoDup_nil _)).
  - apply ok_list. apply Forall_map. unfold dict_keys. apply Forall_map.
    eapply Forall_impl; [|exact E].
    intros [k v] [(s & -> & Hk) _]. cbn. constructor. exact Hk.
Qed.

Lemma json_ok_address_body (rf : dict) :
  json_ok (PDict rf) ->
  json_ok (PList (map key_val (dict_keys rf))) ->
  json_ok (address_body rf).
Proof.
  intros H1 H2. unfold address_body. members.
Qed.

Lemma json_ok_image_body url : scalar_str url -> json_ok (image_body url).
Proof.
  intros H. unfold image_body. members. constructor. exact H.
Qed.

Lemma json_ok_embedding_body ms :
  Forall scalar_str ms -> json_ok (embedding_body (PList (map PStr ms))).
Proof.
  intros H. unfold embedding_body. members.
  apply Forall_map. eapply Forall_impl; [|exact H].
  intros s Hs. constructor. exact Hs.
Qed.

(** ** Running the two effectful functions *)

Lemma skipn_past {A} (a b : list A) : skipn (length a) (a ++ b) = b.
Proof. induction a; cbn; auto. Qed.

Lemma run_process_and_count_tokens text w :
  process_and_count_tokens text w =
  ((resp <- server w (token_request w text) ;;
    body <- resp_json resp ;;
    usage <- getitem body (u "usage") ;;
    getitem usage (u "prompt_tokens"))%result,
   log (EvPost (token_request w text)) w).
Proof.
  unfold process_and_count_tokens, bind, os_getenv, requests_post, lift, ret.
  fold (token_request w text).
  destruct (server w (token_request w text)) as [resp|e]; [|reflexivity].
  cbn [rbind]. destruct (resp_json resp) as [body|e]; [|reflexivity].
  cbn [rbind]. destruct (getitem body (u "usage")) as [usage|e]; [|reflexivity].
  cbn [rbind]. destruct (getitem usage (u "prompt_tokens")); reflexivity.
Qed.

Lemma run_base64_encoding path w :
  base64_encoding path w =
  ((data <- files w path ;;
    Ok (dumps (image_body (data_url_prefix ++ b64encode data))))%result,
   log (EvOpen path) w).
Proof.
  unfold base64_encoding, bind, open_read, ret.
  destruct (files w path); reflexivity.
Qed.

Lemma effects_logged {A} (m : M A) w e :
  snd (m w) = log e w -> effects m w = [e].
Proof. unfold effects. intros ->. apply skipn_past. Qed.

Lemma effects_ret {A} (a : A) w : effects (ret a) w = [].
Proof.
  unfold effects, ret. cbn [snd].
  rewrite <- (List.app_nil_r (trace w)) at 2. apply skipn_past.
Qed.

(** ** The address request *)

Lemma props_of_distinct specs :
  Forall (fun ft => scalar_str (fst ft) /\ scalar_str (snd ft)) specs ->
  NoDup (map fst specs) ->
  props_of specs [] = map field_entry specs.
Proof.
  intros Hs Hn.
  assert (E : forall acc : dict,
             props_of specs acc
             = fold_left (fun d kv => dict_set d (fst kv) (snd kv))
                 (map field_entry specs) acc).
  { unfold props_of. clear. induction specs as [|[f t] specs IH]; intros acc;
      [reflexivity | apply IH]. }
  rewrite E. apply dict_of_pairs_distinct.
  - unfold dict_keys. rewrite map_map. apply Forall_map.
    eapply Forall_impl; [|exact Hs]. intros [f t] [Hf _]. exists f; auto.
  - unfold dict_keys. rewrite map_map.
    change (fun x => fst (field_entry x)) with (fun x : list N * list N => KStr (fst x)).
    rewrite <- (map_map fst KStr). apply KStr_nodup. exact Hn.
Qed.

Lemma KStr_map_inj a b : map KStr a = map KStr b -> a = b.
Proof.
  revert b. induction a as [|x a IH]; intros [|y b] E; try discriminate;
    [reflexivity|].
  cbn [map] in E. injection E as -> E. f_equal. apply IH. exact E.
Qed.

Lemma address_request_built items specs :
  map field_spec items = map Some specs ->
  Forall (fun ft => scalar_str (fst ft) /\ scalar_str (snd ft)) specs ->
  generate_openai_address_request (PList items)
  = Ok (dumps (address_body (props_of specs []))) /\
  loads (dumps (address_body (props_of specs [])))
  = Some (address_body (props_of specs [])).
Proof.
  intros Hi Hs. split.
  - unfold generate_openai_address_request. cbn [iterate rbind].
    rewrite (@required_fields_from_specs items specs [] Hi). reflexivity.
  - apply loads_dumps. destruct (json_ok_props Hs).
    apply json_ok_address_body; assumption.
Qed.

(** C1: for every well-formed input the two builders return a text that is
    valid JSON and has the documented shape.  For a list of items with
    string values under [field] and [type], the address request is an
    object with the model [gpt-4o-mini], the two fixed messages, and a
    response format whose item schema has for every input field an entry
    with a type given for it, a [required] list with exactly the field
    names, and [additionalProperties] false; with distinct field names the
    entries and the names are those of the input in its order.  For a list
    of strings the embedding request is the object with the model
    [text-embedding-3-small] and the list as input. *)
Theorem builders_emit_documented_json items specs ms :
  map field_spec items = map Some specs ->
  Forall (fun ft => scalar_str (fst ft) /\ scalar_str (snd ft)) specs ->
  Forall scalar_str ms ->
  (exists out j properties required,
      generate_openai_address_request (PList items) = Ok out /\
      loads out = Some j /\
      at_path j [Key "model"] = Some (PStr (u "gpt-4o-mini")) /\
      at_path j [Key "messages"]
      = Some (PList [chat_message "system" "Respond in JSON";
                     chat_message "user"
                       "Generate 10 random addresses in the US"]) /\
      at_path j [Key "response_format"; Key "type"]
      = Some (PStr (u "object")) /\
      at_path j [Key "response_format"; Key "required"]
      = Some (PList [PStr (u "addresses")]) /\
      at_path j [Key "response_format"; Key "additionalProperties"]
      = Some (PBool false) /\
      at_path j (addresses_path ++ [Key "type"]) = Some (PStr (u "array")) /\
      at_path j (item_schema_path ++ [Key "type"])
      = Some (PStr (u "object")) /\
      at_path j (item_schema_path ++ [Key "properties"])
      = Some (PDict properties) /\
      at_path j (item_schema_path ++ [Key "required"])
      = Some (PList (map PStr required)) /\
      at_path j (item_schema_path ++ [Key "additionalProperties"])
      = Some (PBool false) /\
      (forall f t, In (f, t) specs ->
         exists t', In (f, t') specs /\
                    dict_get properties (KStr f) = Some (type_schema t')) /\
      dict_keys properties = map KStr required /\
      (forall f, In f required <-> In f (map fst specs)) /\
      (NoDup (map fst specs) ->
       properties = map field_entry specs /\ required = map fst specs)) /\
  loads (generate_embedding_request (PList (map PStr ms)))
  = Some (PDict [(KStr (u "model"), PStr (u "text-embedding-3-small"));
                 (KStr (u "input"), PList (map PStr ms))]).
Proof.
  intros Hi Hs Hm. split.
  - destruct (address_request_built items Hi Hs) as [Hout Hload].
    destruct (@props_of_spec specs [] [] eq_refl) as [K G].
    cbn [List.app] in K.
    exists (dumps (address_body (props_of specs []))),
      (address_body (props_of specs [])), (props_of specs []),
      (distinct_names [] specs).
    repeat (split; [first [exact Hout | exact Hload | reflexivity]|]).
    split.
    { cbn. rewrite K, map_map. reflexivity. }
    split; [reflexivity|].
    split.
    { intros f t Hin. destruct (last_type_some _ _ _ Hin) as [t' Ht].
      exists t'. split; [apply last_type_in; exact Ht|].
      rewrite G, Ht. reflexivity. }
    split; [exact K|].
    split.
    { intros f. rewrite distinct_names_in. cbn [In]. tauto. }
    intros Hn. rewrite (props_of_distinct Hs Hn) in K |- *.
    split; [reflexivity|].
    unfold dict_keys in K. rewrite map_map in K. cbn [field_entry fst] in K.
    rewrite <- (map_map fst KStr) in K.
    apply KStr_map_inj. symmetry. exact K.
  - unfold generate_embedding_request.
    apply (loads_dumps (json_ok_embedding_body Hm)).
Qed.

(** C1 at two items, the second with its keys in the other order. *)
Lemma builders_emit_documented_json_witness :
  exists out j,
    generate_openai_address_request
      (PList [PDict [(KStr (u "field"), PStr (u "state"));
                     (KStr (u "type"), PStr (u "string"))];
              PDict [(KStr (u "type"), PStr (u "number"));
                     (KStr (u "field"), PStr (u "longitude"))]])
    = Ok out /\
    loads out = Some j /\
    at_path j (item_schema_path ++ [Key "required"])
    = Some (PList [PStr (u "state"); PStr (u "longitude")]).
Proof.
  destruct (@builders_emit_documented_json
              [PDict [(KStr (u "field"), PStr (u "state"));
                      (KStr (u "type"), PStr (u "string"))];
               PDict [(KStr (u "type"), PStr (u "number"));
                      (KStr (u "field"), PStr (u "longitude"))]]
              [(u "state", u "string"); (u "longitude", u "number")]
              [u "hello"])
    as [(out & j & properties & required & Hout & Hj & _ & _ & _ & _ & _ & _
         & _ & _ & Hreq & _ & _ & _ & _ & Hd) _].
  - reflexivity.
  - repeat constructor; apply scalar_u.
  - repeat constructor; apply scalar_u.
  - exists out, j. split; [exact Hout|]. split; [exact Hj|].
    rewrite Hreq. destruct Hd as [_ ->]; [|reflexivity].
    cbn. repeat constructor; cbn; intuition discriminate.
Defined.

(** C9: when several entries have the same field name, the item schema's
    [properties] holds the name once, with the type of the last such entry,
    and [required] lists each distinct name once; [required] is the list of
    the keys of [properties]. *)
Theorem repeated_field_keeps_last_type items specs :
  map field_spec items = map Some specs ->
  Forall (fun ft => scalar_str (fst ft) /\ scalar_str (snd ft)) specs ->
  exists out j properties required,
    generate_openai_address_request (PList items) = Ok out /\
    loads out = Some j /\
    at_path j (item_schema_path ++ [Key "properties"])
    = Some (PDict properties) /\
    at_path j (item_schema_path ++ [Key "required"])
    = Some (PList (map PStr required)) /\
    dict_keys properties = map KStr required /\
    required = distinct_names [] specs /\
    NoDup required /\
    NoDup (dict_keys properties) /\
    (forall f, In f required <-> In f (map fst specs)) /\
    (forall f, dict_get properties (KStr f)
               = option_map type_schema (last_type f specs)).
Proof.
  intros Hi Hs.
  destruct (address_request_built items Hi Hs) as [Hout Hload].
  destruct (@props_of_spec specs [] [] eq_refl) as [K G].
  cbn [List.app] in K.
  pose proof (distinct_names_nodup specs (NoDup_nil _)) as Hn.
  cbn [List.app] in Hn.
  exists (dumps (address_body (props_of specs []))),
    (address_body (props_of specs [])), (props_of specs []),
    (distinct_names [] specs).
  split; [exact Hout|]. split; [exact Hload|]. split; [reflexivity|].
  split; [cbn; rewrite K, map_map; reflexivity|].
  split; [exact K|]. split; [reflexivity|]. split; [exact Hn|].
  split; [rewrite K; apply KStr_nodup; exact Hn|].
  split.
  - intros f. rewrite distinct_names_in. cbn [In]. tauto.
  - intros f. rewrite G. destruct (last_type f specs); reflexivity.
Qed.

(** C9 at three items of which the first and the last are named alike. *)
Lemma repeated_field_keeps_last_type_witness :
  exists out j,
    generate_openai_address_request
      (PList [PDict [(KStr (u "field"), PStr (u "state"));
                     (KStr (u "type"), PStr (u "string"))];
              PDict [(KStr (u "field"), PStr (u "zip"));
                     (KStr (u "type"), PStr (u "string"))];
              PDict [(KStr (u "field"), PStr (u "state"));
                     (KStr (u "type"), PStr (u "number"))]])
    = Ok out /\
    loads out = Some j /\
    at_path j (item_schema_path ++ [Key "properties"])
    = Some (PDict [(KStr (u "state"), type_schema (u "number"));
                   (KStr (u "zip"), type_schema (u "string"))]) /\
    at_path j (item_schema_path ++ [Key "required"])
    = Some (PList [PStr (u "state"); PStr (u "zip")]).
Proof.
  destruct (@repeated_field_keeps_last_type
              [PDict [(KStr (u "field"), PStr (u "state"));
                      (KStr (u "type"), PStr (u "string"))];
               PDict [(KStr (u "field"), PStr (u "zip"));
                      (KStr (u "type"), PStr (u "string"))];
               PDict [(KStr (u "field"), PStr (u "state"));
                      (KStr (u "type"), PStr (u "number"))]]
              [(u "state", u "string"); (u "zip", u "string");
               (u "state", u "number")])
    as (out & j & properties & required & Hout & Hj & Hp & Hr & _).
  - reflexivity.
  - repeat constructor; apply scalar_u.
  - exists out, j. split; [exact Hout|]. split; [exact Hj|].
    vm_compute in Hout. injection Hout as <-.
    vm_compute in Hj. injection Hj as <-.
    split; vm_compute; reflexivity.
Defined.

(** ** The image request *)

Lemma starts_with_app p s : starts_with p (p ++ s) = true.
Proof.
  unfold starts_with.
  assert (E : match_prefix p (p ++ s) = Some s).
  { induction p as [|c p IH]; [destruct s; reflexivity|].
    cbn [List.app match_prefix]. rewrite N.eqb_refl. exact IH. }
  rewrite E. reflexivity.
Qed.

Lemma image_request_built w path B :
  files w path = Ok B ->
  outcome (base64_encoding path) w
  = Ok (dumps (image_body (data_url_prefix ++ b64encode B))) /\
  loads (dumps (image_body (data_url_prefix ++ b64encode B)))
  = Some (image_body (data_url_prefix ++ b64encode B)).
Proof.
  intros H. split.
  - unfold outcome. rewrite run_base64_encoding, H. reflexivity.
  - apply loads_dumps, json_ok_image_body.
    apply Forall_app. split; [apply scalar_u | apply scalar_b64encode].
Qed.

(** C2: for a file that holds the bytes [B], [base64_encoding] returns
    valid JSON with a single message, of role user, whose second content
    part is an image URL; the URL is [data:image/png;base64,] followed by a
    base64 text, and decoding that text gives exactly [B]. *)
Theorem data_url_decodes_to_file w path B :
  files w path = Ok B ->
  exists out j message b64,
    outcome (base64_encoding path) w = Ok out /\
    loads out = Some j /\
    at_path j [Key "messages"] = Some (PList [message]) /\
    at_path message [Key "role"] = Some (PStr (u "user")) /\
    at_path message [Key "content"; Idx 1; Key "type"]
    = Some (PStr (u "image_url")) /\
    at_path j image_url_path
    = Some (PStr (u "data:image/png;base64," ++ b64)) /\
    b64decode b64 = Some B.
Proof.
  intros H. destruct (image_request_built w path H) as [Hout Hload].
  eexists; eexists; eexists; exists (b64encode B).
  split; [exact Hout|]. split; [exact Hload|].
  split; [reflexivity|]. split; [reflexivity|]. split; [reflexivity|].
  split; [reflexivity|]. apply b64decode_b64encode.
Qed.

(** C2 at a file of five bytes. *)
Lemma data_url_decodes_to_file_witness :
  exists out j,
    outcome (base64_encoding image_path)
      (still_world (usage_reply 7) (Ok [x89; x50; x4e; x47; x0d]%byte))
    = Ok out /\
    loads out = Some j /\
    at_path j image_url_path = Some (PStr (u "data:image/png;base64,iVBORw0=")).
Proof.
  destruct (@data_url_decodes_to_file
              (still_world (usage_reply 7) (Ok [x89; x50; x4e; x47; x0d]%byte))
              image_path [x89; x50; x4e; x47; x0d]%byte eq_refl)
    as (out & j & message & b64 & Hout & Hj & _ & _ & _ & Hurl & Hdec).
  exists out, j. split; [exact Hout|]. split; [exact Hj|].
  rewrite Hurl. vm_compute in Hout. injection Hout as <-.
  vm_compute in Hj. injection Hj as <-.
  vm_compute in Hurl. injection Hurl as Hurl.
  vm_compute. rewrite <- Hurl. reflexivity.
Defined.

(** C10: whatever bytes the file holds, the URL in the request starts with
    [data:image/png;base64,]: the label does not follow the content. *)
Theorem data_url_is_labelled_png w path B :
  files w path = Ok B ->
  exists out j url,
    outcome (base64_encoding path) w = Ok out /\
    loads out = Some j /\
    at_path j image_url_path = Some (PStr url) /\
    url = data_url_prefix ++ b64encode B /\
    starts_with (u "data:image/png;base64,") url = true.
Proof.
  intros H. destruct (image_request_built w path H) as [Hout Hload].
  eexists; eexists; eexists.
  split; [exact Hout|]. split; [exact Hload|]. split; [reflexivity|].
  split; [reflexivity|]. apply starts_with_app.
Qed.

(** C10 at a file that starts as a JPEG does: it is labelled PNG all the
    same. *)
Lemma data_url_is_labelled_png_witness :
  exists out j,
    outcome (base64_encoding (u "photo.jpg"))
      (still_world (usage_reply 7) (Ok [xff; xd8; xff; xe0]%byte))
    = Ok out /\
    loads out = Some j /\
    at_path j image_url_path = Some (PStr (u "data:image/png;base64,/9j/4A==")).
Proof.
  destruct (@data_url_is_labelled_png
              (still_world (usage_reply 7) (Ok [xff; xd8; xff; xe0]%byte))
              (u "photo.jpg") [xff; xd8; xff; xe0]%byte eq_refl)
    as (out & j & url & Hout & Hj & Hurl & -> & _).
  exists out, j. split; [exact Hout|]. split; [exact Hj|].
  rewrite Hurl. reflexivity.
Defined.

(** ** The token count *)

Lemma effects_process_and_count_tokens text w :
  effects (process_and_count_tokens text) w = [EvPost (token_request w text)].
Proof. apply effects_logged. rewrite run_process_and_count_tokens. reflexivity. Qed.

Lemma effects_base64_encoding path w :
  effects (base64_encoding path) w = [EvOpen path].
Proof. apply effects_logged. rewrite run_base64_encoding. reflexivity. Qed.

(** C3, as the claim states it, fails: the one request goes to a URL of
    scheme [http], not [https]; and a response whose body has no [usage]
    gives no token count but a [KeyError]. *)
Lemma token_request_is_plain_http :
  starts_with (u "https://") api_url = false /\
  effects (process_and_count_tokens text) (still_world (usage_reply 81) (Raise OSError))
  = [EvPost {| req_url := u "http://aiproxy.sanand.workers.dev/openai/v1/chat/completions";
               req_headers := [(u "Authorization", u "Bearer None");
                               (u "Content-Type", u "application/json")];
               req_json := token_payload text |}] /\
  outcome (process_and_count_tokens text)
    (still_world (Ok {| resp_json := Ok (PDict []) |}) (Raise OSError))
  = Raise (KeyError (KStr (u "usage"))).
Proof.
  split; [reflexivity|]. split.
  - rewrite effects_process_and_count_tokens. reflexivity.
  - unfold outcome. rewrite run_process_and_count_tokens. reflexivity.
Qed.

(** C3, amended: [process_and_count_tokens] performs exactly one outbound
    request, a POST of a chat-completions payload to the hard-coded URL,
    whose scheme is [http] and whose path ends in [/chat/completions]; when
    the JSON body of the response has a [usage] object with
    [prompt_tokens], the function returns that value. *)
Theorem token_count_from_usage w text resp body usage n :
  server w (token_request w text) = Ok resp ->
  resp_json resp = Ok body ->
  getitem body (u "usage") = Ok usage ->
  getitem usage (u "prompt_tokens") = Ok n ->
  effects (process_and_count_tokens text) w = [EvPost (token_request w text)] /\
  req_url (token_request w text)
  = u "http://aiproxy.sanand.workers.dev/openai/v1/chat/completions" /\
  starts_with (u "http://") (req_url (token_request w text)) = true /\
  ends_with (u "/chat/completions") (req_url (token_request w text)) = true /\
  at_path (req_json (token_request w text)) [Key "model"]
  = Some (PStr (u "gpt-4o-mini")) /\
  at_path (req_json (token_request w text)) [Key "messages"]
  = Some (PList [PDict [(KStr (u "role"), PStr (u "user"));
                        (KStr (u "content"), PStr text)]]) /\
  outcome (process_and_count_tokens text) w = Ok n.
Proof.
  intros Hs Hj Hu Hn.
  split; [apply effects_process_and_count_tokens|].
  repeat (split; [reflexivity|]).
  unfold outcome. rewrite run_process_and_count_tokens. cbn [fst].
  rewrite Hs. cbn [rbind]. rewrite Hj. cbn [rbind]. rewrite Hu. cbn [rbind].
  exact Hn.
Qed.

(** C3, amended, at a server that reports 81 prompt tokens. *)
Lemma token_count_from_usage_witness :
  outcome (process_and_count_tokens text)
    (still_world (usage_reply 81) (Raise OSError))
  = Ok (PInt 81).
Proof.
  apply (@token_count_from_usage
           (still_world (usage_reply 81) (Raise OSError)) text
           {| resp_json :=
                Ok (PDict [(KStr (u "usage"),
                            PDict [(KStr (u "prompt_tokens"), PInt 81)])]) |}
           (PDict [(KStr (u "usage"),
                    PDict [(KStr (u "prompt_tokens"), PInt 81)])])
           (PDict [(KStr (u "prompt_tokens"), PInt 81)])
           (PInt 81));
    reflexivity.
Defined.

(** C6: nothing is caught.  When the POST raises, when the body of the
    response is no JSON, when it has no [usage] or that has no
    [prompt_tokens], [process_and_count_tokens] raises that very exception
    after its one request, with no second attempt; when opening or reading
    the file raises, [base64_encoding] raises that exception after its one
    attempt to open it. *)
Theorem faults_propagate w text path :
  (forall e, server w (token_request w text) = Raise e ->
             outcome (process_and_count_tokens text) w = Raise e) /\
  (forall resp e, server w (token_request w text) = Ok resp ->
                  resp_json resp = Raise e ->
                  outcome (process_and_count_tokens text) w = Raise e) /\
  (forall resp d, server w (token_request w text) = Ok resp ->
                  resp_json resp = Ok (PDict d) ->
                  dict_get d (KStr (u "usage")) = None ->
                  outcome (process_and_count_tokens text) w
                  = Raise (KeyError (KStr (u "usage")))) /\
  (forall resp d usage, server w (token_request w text) = Ok resp ->
                  resp_json resp = Ok (PDict d) ->
                  dict_get d (KStr (u "usage")) = Some (PDict usage) ->
                  dict_get usage (KStr (u "prompt_tokens")) = None ->
                  outcome (process_and_count_tokens text) w
                  = Raise (KeyError (KStr (u "prompt_tokens")))) /\
  (forall resp body e, server w (token_request w text) = Ok resp ->
                  resp_json resp = Ok body ->
                  (usage <- getitem body (u "usage") ;;
                   getitem usage (u "prompt_tokens"))%result = Raise e ->
                  outcome (process_and_count_tokens text) w = Raise e) /\
  effects (process_and_count_tokens text) w = [EvPost (token_request w text)] /\
  (forall e, files w path = Raise e ->
             outcome (base64_encoding path) w = Raise e) /\
  effects (base64_encoding path) w = [EvOpen path].
Proof.
  unfold outcome. rewrite run_process_and_count_tokens, run_base64_encoding.
  cbn [fst].
  split; [intros e ->; reflexivity|].
  split; [intros resp e Hs Hj; rewrite Hs; cbn [rbind]; rewrite Hj;
          reflexivity|].
  split; [intros resp d Hs Hj Hd; rewrite Hs; cbn [rbind]; rewrite Hj;
          cbn [rbind getitem]; rewrite Hd; reflexivity|].
  split; [intros resp d usage Hs Hj Hd Hu; rewrite Hs; cbn [rbind];
          rewrite Hj; cbn [rbind getitem]; rewrite Hd; cbn [rbind getitem];
          rewrite Hu; reflexivity|].
  split; [intros resp body e Hs Hj H; rewrite Hs; cbn [rbind]; rewrite Hj;
          exact H|].
  split; [apply effects_process_and_count_tokens|].
  split; [intros e ->; reflexivity|].
  apply effects_base64_encoding.
Qed.

(** C6 at a world where the request and the file both fail. *)
Lemma faults_propagate_witness :
  outcome (process_and_count_tokens text)
    (still_world (Raise RequestException) (Raise OSError))
  = Raise RequestException /\
  outcome (base64_encoding image_path)
    (still_world (Raise RequestException) (Raise OSError))
  = Raise OSError.
Proof.
  destruct (@faults_propagate
              (still_world (Raise RequestException) (Raise OSError))
              text image_path)
    as (Hpost & _ & _ & _ & _ & _ & Hopen & _).
  split; [apply Hpost | apply Hopen]; reflexivity.
Defined.

(** ** The script *)

Lemma bind_print {B} v (k : unit -> M B) w :
  bind (print v) k w = k tt (log (EvPrint v) w).
Proof. reflexivity. Qed.

Lemma demo_fields_are_no_list :
  generate_openai_address_request fields = Raise TypeError.
Proof. reflexivity. Qed.

Lemma run_main w tokens :
  outcome (process_and_count_tokens text) w = Ok tokens ->
  main w
  = (Raise TypeError,
     log (EvPrint (PStr (u "=================Q3====================")))
       (log (EvPrint tokens)
          (log (EvPost (token_request w text))
             (log (EvPrint (PStr (u "=================Q2====================")))
                (log (EvPrint (PStr (generate_sentiment_test_code test_text)))
                   (log (EvPrint
                           (PStr (u "=================Q1====================")))
                      w)))))).
Proof.
  intros H. unfold outcome in H. rewrite run_process_and_count_tokens in H.
  cbn [fst] in H.
  unfold main.
  rewrite !bind_print.
  unfold bind at 1. rewrite run_process_and_count_tokens.
  change (server (log _ (log _ (log _ w)))) with (server w).
  change (token_request (log _ (log _ (log _ w))) text)
    with (token_request w text).
  rewrite H. rewrite !bind_print.
  unfold bind at 1. rewrite demo_fields_are_no_list.
  reflexivity.
Qed.

(** C4 fails on the code: the script hands [generate_openai_address_request]
    a dict that maps field names to schemas, where the function takes a list
    of items with [field] and [type].  Iterating the dict yields its keys,
    and subscripting the string [state] with [field] raises [TypeError]:
    when the network call succeeds, the script prints the first banner and
    the generated code, the second banner and the token count, the third
    banner, and stops. *)
Theorem script_stops_at_Q3 w tokens :
  outcome (process_and_count_tokens text) w = Ok tokens ->
  outcome main w = Raise TypeError /\
  effects main w
  = [ EvPrint (PStr (u "=================Q1===================="));
      EvPrint (PStr (generate_sentiment_test_code test_text));
      EvPrint (PStr (u "=================Q2===================="));
      EvPost (token_request w text);
      EvPrint tokens;
      EvPrint (PStr (u "=================Q3====================")) ].
Proof.
  intros H. unfold outcome, effects. rewrite (run_main w H).
  split; [reflexivity|].
  cbn [fst snd log trace].
  repeat rewrite <- List.app_assoc. cbn [List.app]. apply skipn_past.
Qed.

(** C4 at a world where the request and the file both succeed. *)
Lemma script_stops_at_Q3_witness :
  outcome main (still_world (usage_reply 81) (Ok [x89; x50; x4e; x47]%byte))
  = Raise TypeError.
Proof.
  apply (@script_stops_at_Q3
           (still_world (usage_reply 81) (Ok [x89; x50; x4e; x47]%byte))
           (PInt 81)).
  reflexivity.
Defined.

(** ** The fixed strings and the pure builders *)

(** C5: the two endpoint functions return the two hard-coded URLs, in every
    world, and perform no effect. *)
Theorem endpoints_are_fixed_urls w :
  ret docs_similarity_api_endpoint w
  = (Ok (u "https://tds-project-2-ga3-7.vercel.app/similarity"), w) /\
  ret employee_queries_api_endpoint w
  = (Ok (u "https://tds-project-2-ga3-8.vercel.app/execute"), w) /\
  effects (ret docs_similarity_api_endpoint) w = [] /\
  effects (ret employee_queries_api_endpoint) w = [].
Proof.
  split; [reflexivity|]. split; [reflexivity|].
  split; apply effects_ret.
Qed.

Lemma pure_ret {A} (a : A) : pure_call (ret a).
Proof. exists (Ok a). reflexivity. Qed.

Lemma pure_lift {A} (r : result A) : pure_call (lift r).
Proof. exists r. reflexivity. Qed.

Lemma effectful_not_pure {A} (m : M A) w :
  effects m w <> [] -> ~ pure_call m.
Proof.
  intros H [r Hr]. apply H. unfold effects. rewrite Hr. cbn [snd].
  rewrite <- (List.app_nil_r (trace w)) at 2. apply skipn_past.
Qed.

(** C7: called with the same arguments, the seven builders give the same
    result in every world and leave the world as it is; the two other
    functions do not: each performs an effect. *)
Theorem builders_are_pure s fields messages text path :
  pure_call (ret (generate_sentiment_test_code s)) /\
  pure_call (lift (generate_openai_address_request fields)) /\
  pure_call (ret (generate_embedding_request messages)) /\
  pure_call (ret return_most_similar_function) /\
  pure_call (ret docs_similarity_api_endpoint) /\
  pure_call (ret employee_queries_api_endpoint) /\
  pure_call (ret generate_prompt) /\
  ~ pure_call (process_and_count_tokens text) /\
  ~ pure_call (base64_encoding path).
Proof.
  repeat (split; [first [apply pure_ret | apply pure_lift]|]).
  split.
  - apply effectful_not_pure
      with (w := still_world (Raise OSError) (Raise OSError)).
    rewrite effects_process_and_count_tokens. discriminate.
  - apply effectful_not_pure
      with (w := still_world (Raise OSError) (Raise OSError)).
    rewrite effects_base64_encoding. discriminate.
Qed.

(** ** The generated test code *)

(** C8: the text given to [generate_sentiment_test_code] stands in the
    generated code as it is, with nothing escaped, between the opening of
    the user message and its closing quote and brace; what comes before and
    after does not depend on the text. *)
Theorem sentiment_code_embeds_text :
  exists before after,
    forall s,
      generate_sentiment_test_code s
      = before ++ q "{`role`: `user`, `content`: `" ++ s ++ q "`}" ++ after.
Proof.
  exists (firstn (length sentiment_head
                  - length (q "{`role`: `user`, `content`: `")) sentiment_head),
    (skipn (length (q "`}")) sentiment_tail).
  intros s. unfold generate_sentiment_test_code.
  assert (Eh : sentiment_head
               = firstn (length sentiment_head
                         - length (q "{`role`: `user`, `content`: `"))
                   sentiment_head
                 ++ q "{`role`: `user`, `content`: `")
    by (vm_compute; reflexivity).
  assert (Et : sentiment_tail
               = q "`}" ++ skipn (length (q "`}")) sentiment_tail)
    by (vm_compute; reflexivity).
  rewrite Eh at 1. rewrite Et at 1.
  repeat rewrite <- List.app_assoc. reflexivity.
Qed.

(** A text with a quote and braces goes in unescaped. *)
Example sentiment_code_keeps_quotes :
  generate_sentiment_test_code (q "a`} {b")
  = sentiment_head ++ q "a`} {b" ++ sentiment_tail /\
  In 34%N (q "a`} {b").
Proof. split; [reflexivity | vm_compute; tauto]. Qed.

(* ================================================================== *)
(** * Part III: further properties *)
(* ================================================================== *)

(** ** Which arguments the address request takes *)

Lemma required_fields_from_app a :
  forall b acc,
    required_fields_from (a ++ b) acc
    = (d <- required_fields_from a acc ;; required_fields_from b d)%result.
Proof.
  induction a as [|item a IH]; intros b acc; [reflexivity|].
  cbn [List.app required_fields_from].
  destruct (getitem item (u "field")) as [f|e]; cbn [rbind]; [|reflexivity].
  destruct (getitem item (u "type")) as [t|e]; cbn [rbind]; [|reflexivity].
  destruct (to_key f) as [k|e]; cbn [rbind]; [|reflexivity].
  apply IH.
Qed.






(** X2: the first item that cannot be used decides the exception, and what
    follows it is not looked at.  After items on which the function
    returns, a dict without [field] raises [KeyError] of [field]; one with
    [field] and without [type] raises [KeyError] of [type]; one whose
    [field] is a list or a dict raises [TypeError], and so does an item
    that is no dict. *)
Theorem first_unusable_item_decides before item after out :
  generate_openai_address_request (PList before) = Ok out ->
  (forall d, item = PDict d ->
             dict_get d (KStr (u "field")) = None ->
             generate_openai_address_request (PList (before ++ item :: after))
             = Raise (KeyError (KStr (u "field")))) /\
  (forall d f, item = PDict d ->
               dict_get d (KStr (u "field")) = Some f ->
               dict_get d (KStr (u "type")) = None ->
               generate_openai_address_request (PList (before ++ item :: after))
               = Raise (KeyError (KStr (u "type")))) /\
  (forall d f t, item = PDict d ->
                 dict_get d (KStr (u "field")) = Some f ->
                 dict_get d (KStr (u "type")) = Some t ->
                 hashable f = false ->
                 generate_openai_address_request (PList (before ++ item :: after))
                 = Raise TypeError) /\
  ((forall d, item <> PDict d) ->
   generate_openai_address_request (PList (before ++ item :: after))
   = Raise TypeError).
Proof.
  unfold generate_openai_address_request. cbn [iterate rbind].
  intros H.
  destruct (required_fields_from before []) as [acc|e] eqn:E; [|discriminate].
  clear H. rewrite required_fields_from_app, E. cbn [rbind].
  split; [|split; [|split]].
  - intros d -> Hf. cbn [required_fields_from getitem]. rewrite Hf. reflexivity.
  - intros d f -> Hf Ht. cbn [required_fields_from getitem].
    rewrite Hf, Ht. reflexivity.
  - intros d f t -> Hf Ht Hh. cbn [required_fields_from getitem].
    rewrite Hf, Ht. cbn [rbind].
    destruct f; try discriminate; reflexivity.
  - intros Hn. destruct item; try reflexivity. exfalso. eapply Hn. reflexivity.
Qed.

(** X2 after one good item: a second item that lacks [type]. *)
Lemma first_unusable_item_decides_witness :
  generate_openai_address_request
    (PList [PDict [(KStr (u "field"), PStr (u "state"));
                   (KStr (u "type"), PStr (u "string"))];
            PDict [(KStr (u "field"), PStr (u "zip"))];
            PNone])
  = Raise (KeyError (KStr (u "type"))).
Proof.
  destruct (@first_unusable_item_decides
              [PDict [(KStr (u "field"), PStr (u "state"));
                      (KStr (u "type"), PStr (u "string"))]]
              (PDict [(KStr (u "field"), PStr (u "zip"))])
              [PNone]
              (dumps (address_body
                        [(KStr (u "state"), type_schema (u "string"))]))
              eq_refl)
    as (_ & H & _).
  apply (H [(KStr (u "field"), PStr (u "zip"))] (PStr (u "zip")));
    reflexivity.
Defined.



Lemma address_body_as_with (rf : dict) :
  address_body rf = address_body_with rf (map key_val (dict_keys rf)).
Proof. reflexivity. Qed.

Lemma json_ok_address_body_with (properties : dict) required :
  json_ok (PDict properties) -> json_ok (PList required) ->
  json_ok (address_body_with properties required).
Proof.
  intros H1 H2. unfold address_body_with, chat_message. members.
Qed.

(** X4: on an empty list the address request has empty [properties] and an
    empty [required]; an empty dict and an empty string give the very same
    text. *)
Theorem address_request_of_nothing :
  exists out j,
    generate_openai_address_request (PList []) = Ok out /\
    generate_openai_address_request (PDict []) = Ok out /\
    generate_openai_address_request (PStr []) = Ok out /\
    loads out = Some j /\
    at_path j (item_schema_path ++ [Key "properties"]) = Some (PDict []) /\
    at_path j (item_schema_path ++ [Key "required"]) = Some (PList []) /\
    at_path j (item_schema_path ++ [Key "additionalProperties"])
    = Some (PBool false).
Proof.
  exists (dumps (address_body [])), (address_body []).
  split; [reflexivity|]. split; [reflexivity|]. split; [reflexivity|].
  split; [|repeat split; reflexivity].
  apply loads_dumps. rewrite address_body_as_with.
  apply json_ok_address_body_with; repeat constructor.
Qed.

(** ** Types that are no strings, names that are no strings *)

Lemma field_view_getitem item f t :
  field_view item = Some (f, t) ->
  getitem item (u "field") = Ok (PStr f) /\ getitem item (u "type") = Ok t.
Proof.
  unfold field_view.
  destruct (getitem item (u "field")) as [[ | | | f' | | ] | ]; try discriminate.
  destruct (getitem item (u "type")) as [t' | ]; try discriminate.
  intros H; inversion H; auto.
Qed.

Lemma required_fields_from_entries items :
  forall entries acc,
    map field_view items = map Some entries ->
    required_fields_from items acc = Ok (entries_of entries acc).
Proof.
  induction items as [|item items IH]; intros [|[f t] entries] acc H;
    try discriminate; [reflexivity|].
  cbn [map] in H. injection H as Hi Hrest.
  destruct (field_view_getitem _ Hi) as [Hf Ht].
  cbn [required_fields_from]. rewrite Hf, Ht. cbn [rbind to_key].
  rewrite (IH entries _ Hrest). reflexivity.
Qed.









(** X6: items are told apart by the string [field] and the value under
    [type] alone: other keys of an item, and the order of its keys, change
    nothing in the request. *)
Theorem other_keys_are_ignored items items' entries :
  map field_view items = map Some entries ->
  map field_view items' = map Some entries ->
  generate_openai_address_request (PList items)
  = generate_openai_address_request (PList items').
Proof.
  intros H H'. unfold generate_openai_address_request. cbn [iterate rbind].
  rewrite (@required_fields_from_entries items entries [] H).
  rewrite (@required_fields_from_entries items' entries [] H').
  reflexivity.
Qed.

(** X6 at an item with a third key and one with its keys swapped. *)
Lemma other_keys_are_ignored_witness :
  generate_openai_address_request
    (PList [PDict [(KStr (u "field"), PStr (u "zip"));
                   (KStr (u "type"), PStr (u "string"));
                   (KStr (u "note"), PNone)]])
  = generate_openai_address_request
      (PList [PDict [(KStr (u "type"), PStr (u "string"));
                     (KStr (u "field"), PStr (u "zip"))]]).
Proof.
  apply (@other_keys_are_ignored
           [PDict [(KStr (u "field"), PStr (u "zip"));
                   (KStr (u "type"), PStr (u "string"));
                   (KStr (u "note"), PNone)]]
           [PDict [(KStr (u "type"), PStr (u "string"));
                   (KStr (u "field"), PStr (u "zip"))]]
           [(u "zip", PStr (u "string"))]);
    reflexivity.
Defined.






(** ** The generated test code gives its text back *)

(** X8: the text can be taken out of the generated code again: what stands
    between the two fixed parts is the text given, so two texts that differ
    give code that differs. *)
Theorem sentiment_text_is_recovered s s' :
  extract_text (generate_sentiment_test_code s) = s /\
  (generate_sentiment_test_code s = generate_sentiment_test_code s' -> s = s').
Proof.
  assert (E : forall x, extract_text (generate_sentiment_test_code x) = x).
  { intros x. unfold extract_text, generate_sentiment_test_code.
    rewrite skipn_past. rewrite !List.length_app.
    replace (length sentiment_head + (length x + length sentiment_tail)
             - length sentiment_head - length sentiment_tail)
      with (length x + 0) by lia.
    rewrite firstn_app_2. cbn [firstn]. apply List.app_nil_r. }
  split; [apply E|].
  intros H. rewrite <- (E s), <- (E s'), H. reflexivity.
Qed.

(** ** When the token count is returned *)

(** X9: [process_and_count_tokens] returns a value exactly when the request
    is answered, the answer's body is a JSON object, its [usage] is an
    object, and that has [prompt_tokens]; the value is returned as it is,
    of whatever kind.  A body, or a [usage], that is no object raises
    [TypeError]. *)
Theorem token_count_returned_iff w text n :
  (outcome (process_and_count_tokens text) w = Ok n
   <-> exists resp d usage,
         server w (token_request w text) = Ok resp /\
         resp_json resp = Ok (PDict d) /\
         dict_get d (KStr (u "usage")) = Some (PDict usage) /\
         dict_get usage (KStr (u "prompt_tokens")) = Some n) /\
  (forall resp body,
      server w (token_request w text) = Ok resp ->
      resp_json resp = Ok body ->
      (forall d, body <> PDict d) ->
      outcome (process_and_count_tokens text) w = Raise TypeError) /\
  (forall resp d usage,
      server w (token_request w text) = Ok resp ->
      resp_json resp = Ok (PDict d) ->
      dict_get d (KStr (u "usage")) = Some usage ->
      (forall d', usage <> PDict d') ->
      outcome (process_and_count_tokens text) w = Raise TypeError).
Proof.
  unfold outcome. rewrite run_process_and_count_tokens. cbn [fst].
  split; [|split].
  - split.
    + destruct (server w (token_request w text)) as [resp|e]; [|discriminate].
      cbn [rbind].
      destruct (resp_json resp) as [body|e] eqn:Ej; [|discriminate].
      cbn [rbind].
      destruct body as [ | | | | | d]; try discriminate.
      cbn [getitem].
      destruct (dict_get d (KStr (u "usage"))) as [usage|] eqn:Eu;
        [|discriminate].
      cbn [rbind].
      destruct usage as [ | | | | | usage]; try discriminate.
      cbn [getitem].
      destruct (dict_get usage (KStr (u "prompt_tokens"))) as [m|] eqn:Ep;
        [|discriminate].
      intros H. injection H as <-.
      exists resp, d, usage. auto.
    + intros (resp & d & usage & Hs & Hj & Hu & Hp).
      rewrite Hs. cbn [rbind]. rewrite Hj. cbn [rbind getitem].
      rewrite Hu. cbn [rbind getitem]. rewrite Hp. reflexivity.
  - intros resp body Hs Hj Hn. rewrite Hs. cbn [rbind]. rewrite Hj.
    cbn [rbind]. destruct body; try reflexivity.
    exfalso. eapply Hn. reflexivity.
  - intros resp d usage Hs Hj Hu Hn. rewrite Hs. cbn [rbind]. rewrite Hj.
    cbn [rbind getitem]. rewrite Hu. cbn [rbind].
    destruct usage; try reflexivity. exfalso. eapply Hn. reflexivity.
Qed.


(** ** The image request and the size of its URL *)

Lemma b64encode_length bs : length (b64encode bs) = 4 * ((length bs + 2) / 3).
Proof.
  induction bs as [ | a | a b | a b c bs IH ] using list_ind3;
    try reflexivity.
  cbn [b64encode]. cbv zeta. cbn [length]. rewrite IH.
  replace (S (S (S (length bs))) + 2) with (1 * 3 + (length bs + 2)) by lia.
  rewrite Nat.div_add_l by discriminate. lia.
Qed.

Lemma image_body_url_inj url url' :
  image_body url = image_body url' -> url = url'.
Proof. unfold image_body. intros H. inversion H. reflexivity. Qed.

(** X11: requests built from files that differ, differ: the bytes of the
    file can be told from the text that [base64_encoding] returns, whatever
    the paths and the worlds. *)
Theorem image_request_tells_the_file w w' path path' B B' :
  files w path = Ok B ->
  files w' path' = Ok B' ->
  outcome (base64_encoding path) w = outcome (base64_encoding path') w' ->
  B = B'.
Proof.
  intros H H' E.
  destruct (image_request_built w path H) as [Ho Hl].
  destruct (image_request_built w' path' H') as [Ho' Hl'].
  rewrite Ho, Ho' in E.
  pose proof (f_equal (fun r => match r with
                                | Ok x => loads x
                                | Raise _ => None
                                end) E) as E2.
  cbv beta iota in E2. rewrite Hl, Hl' in E2.
  assert (E3 : image_body (data_url_prefix ++ b64encode B)
               = image_body (data_url_prefix ++ b64encode B'))
    by congruence.
  apply image_body_url_inj in E3. apply List.app_inv_head in E3.
  pose proof (f_equal b64decode E3) as E4.
  rewrite !b64decode_b64encode in E4. congruence.
Qed.

(** X11 at two worlds that hold the same three bytes under two names. *)
Lemma image_request_tells_the_file_witness :
  [x01; x02; x03]%byte = [x01; x02; x03]%byte.
Proof.
  apply (@image_request_tells_the_file
           (still_world (usage_reply 1) (Ok [x01; x02; x03]%byte))
           (still_world (Raise OSError) (Ok [x01; x02; x03]%byte))
           (u "a.png") (u "b.png")); reflexivity.
Defined.

(** X12: the URL is 22 characters of label and four characters for every
    three bytes of the file, the last group filled up; for an empty file it
    is the label alone. *)
Theorem data_url_length w path B :
  files w path = Ok B ->
  exists out j url,
    outcome (base64_encoding path) w = Ok out /\
    loads out = Some j /\
    at_path j image_url_path = Some (PStr url) /\
    length url = 22 + 4 * ((length B + 2) / 3) /\
    (B = [] -> url = u "data:image/png;base64,").
Proof.
  intros H. destruct (image_request_built w path H) as [Hout Hload].
  exists (dumps (image_body (data_url_prefix ++ b64encode B))),
    (image_body (data_url_prefix ++ b64encode B)),
    (data_url_prefix ++ b64encode B).
  split; [exact Hout|]. split; [exact Hload|]. split; [reflexivity|].
  split.
  - rewrite List.length_app, b64encode_length. reflexivity.
  - intros ->. reflexivity.
Qed.

(** X12 at an empty file. *)
Lemma data_url_length_witness :
  exists out j,
    outcome (base64_encoding image_path) (still_world (usage_reply 1) (Ok []))
    = Ok out /\
    loads out = Some j /\
    at_path j image_url_path = Some (PStr (u "data:image/png;base64,")).
Proof.
  destruct (@data_url_length (still_world (usage_reply 1) (Ok []))
              image_path [] eq_refl)
    as (out & j & url & Hout & Hj & Hu & _ & He).
  exists out, j. split; [exact Hout|]. split; [exact Hj|].
  rewrite Hu, (He eq_refl). reflexivity.
Defined.

(** ** The requests are ASCII text *)

Lemma ascii_text_app a b : ascii_text a -> ascii_text b -> ascii_text (a ++ b).
Proof. intros Ha Hb. apply Forall_app; auto. Qed.

Lemma ascii_hex_digit d : (d < 16)%N -> ascii_char (hex_digit d) = true.
Proof.
  intros H.
  apply (@forall_below (fun d => ascii_char (hex_digit d)) 16);
    [vm_compute; reflexivity | exact H].
Qed.

Lemma ascii_escape_u n : ascii_text (escape_u n).
Proof.
  unfold escape_u, hex4.
  repeat (constructor;
          [first [reflexivity
                 | apply ascii_hex_digit, N.mod_upper_bound; discriminate]|]).
  constructor.
Qed.

Lemma ascii_escape_char c : ascii_text (escape_char c).
Proof.
  unfold escape_char.
  repeat match goal with
         | |- ascii_text (if N.eqb ?a ?b then _ else _) =>
             destruct (N.eqb a b);
             [repeat constructor|]
         end.
  destruct (N.leb 32 c && N.leb c 126) eqn:E.
  - constructor; [|constructor]. unfold ascii_char. rewrite E.
    apply orb_true_r.
  - destruct (N.ltb c 65536); [apply ascii_escape_u|].
    cbv zeta. apply ascii_text_app; apply ascii_escape_u.
Qed.

Lemma ascii_encode_basestring s : ascii_text (encode_basestring_ascii s).
Proof.
  unfold encode_basestring_ascii, encode_chars.
  constructor; [reflexivity|]. apply ascii_text_app; [|repeat constructor].
  induction s as [|c s IH]; [constructor|].
  cbn [flat_map]. apply ascii_text_app; [apply ascii_escape_char | exact IH].
Qed.

Lemma ascii_uint_chars d : ascii_text (uint_chars d).
Proof. induction d; cbn [uint_chars]; constructor; try exact IHd; reflexivity. Qed.

Lemma ascii_int_repr z : ascii_text (int_repr z).
Proof.
  unfold int_repr. destruct (Z.to_int z);
    [|constructor; [reflexivity|]]; apply ascii_uint_chars.
Qed.

Lemma ascii_newline_indent level : ascii_text (newline_indent level).
Proof.
  unfold newline_indent. constructor; [reflexivity|].
  induction (2 * level) as [|n IH]; cbn [repeat]; constructor;
    [reflexivity | exact IH].
Qed.

Lemma ascii_join_items level items :
  Forall ascii_text items -> ascii_text (join_items level items).
Proof.
  induction 1 as [|x items Hx Hi IH]; [constructor|].
  cbn [join_items]. apply ascii_text_app; [apply ascii_newline_indent|].
  apply ascii_text_app; [exact Hx|].
  destruct items; [constructor|]. constructor; [reflexivity | exact IH].
Qed.

Lemma ascii_dumps_at v : forall level, ascii_text (dumps_at level v).
Proof.
  induction v as [ | b | z | s | l IH | d IH ] using pyval_ind; intros level.
  - repeat constructor.
  - destruct b; repeat constructor.
  - apply ascii_int_repr.
  - apply ascii_encode_basestring.
  - destruct l as [|x l]; [repeat constructor|].
    remember (x :: l) as l2 eqn:El.
    replace (dumps_at level (PList l2))
      with (91%N :: join_items (S level) (map (dumps_at (S level)) l2)
            ++ newline_indent level ++ [93%N])
      by (subst; reflexivity).
    constructor; [reflexivity|]. apply ascii_text_app.
    + apply ascii_join_items. apply Forall_map.
      eapply Forall_impl; [|exact IH]. intros y Hy. apply Hy.
    + apply ascii_text_app; [apply ascii_newline_indent | repeat constructor].
  - destruct d as [|kv d]; [repeat constructor|].
    remember (kv :: d) as d2 eqn:El.
    replace (dumps_at level (PDict d2))
      with (123%N :: join_items (S level)
              (map (fun kv => encode_basestring_ascii (key_str (fst kv))
                              ++ u ": " ++ dumps_at (S level) (snd kv)) d2)
            ++ newline_indent level ++ [125%N])
      by (subst; reflexivity).
    constructor; [reflexivity|]. apply ascii_text_app.
    + apply ascii_join_items. apply Forall_map.
      eapply Forall_impl; [|exact IH]. intros [k y] Hy. cbn [fst snd] in *.
      apply ascii_text_app; [apply ascii_encode_basestring|].
      apply ascii_text_app; [repeat constructor | apply Hy].
    + apply ascii_text_app; [apply ascii_newline_indent | repeat constructor].
Qed.

(** X13: whatever the strings given, the three JSON builders return text of
    printable ASCII characters and newlines: every other character of a
    name, a type, a message or a key is written as an escape. *)
Theorem requests_are_ascii fields messages w path :
  (forall out, generate_openai_address_request fields = Ok out ->
               ascii_text out) /\
  ascii_text (generate_embedding_request messages) /\
  (forall out, outcome (base64_encoding path) w = Ok out -> ascii_text out).
Proof.
  split; [|split].
  - unfold generate_openai_address_request. intros out H.
    destruct (iterate fields) as [items|]; [|discriminate]. cbn [rbind] in H.
    destruct (required_fields_from items []) as [rf|]; [|discriminate].
    injection H as <-. apply ascii_dumps_at.
  - apply ascii_dumps_at.
  - unfold outcome. rewrite run_base64_encoding. cbn [fst]. intros out H.
    destruct (files w path); [|discriminate]. injection H as <-.
    apply ascii_dumps_at.
Qed.

(** ** The script never gets past its third part *)



(** ** The embedding request carries any value *)



(** ** The data URL stands in the text as it is *)

Lemma escape_plain_char c : plain_char c = true -> escape_char c = [c].
Proof.
  unfold plain_char, escape_char. intros H.
  repeat (apply andb_true_iff in H; destruct H as [H ?]).
  apply N.leb_le in H.
  repeat match goal with
         | X : negb _ = true |- _ => apply negb_true_iff in X; rewrite X
         end.
  repeat match goal with
         | |- (if N.eqb c ?k then _ else _) = _ =>
             destruct (N.eqb_spec c k); [lia|]
         end.
  replace (N.leb 32 c) with true by (symmetry; apply N.leb_le; exact H).
  match goal with X : N.leb c 126 = true |- _ => rewrite X end.
  reflexivity.
Qed.

Lemma encode_plain_chars s :
  forallb plain_char s = true -> encode_chars s = s.
Proof.
  unfold encode_chars. induction s as [|c s IH]; [reflexivity|].
  cbn [forallb flat_map]. intros H. apply andb_true_iff in H.
  destruct H as [Hc Hs]. rewrite (escape_plain_char c Hc), (IH Hs). reflexivity.
Qed.

Lemma plain_b64_char i : plain_char (b64_char i) = true.
Proof.
  destruct (N.lt_ge_cases i 64) as [H | H].
  - apply (@forall_below (fun i => plain_char (b64_char i)) 64);
      [vm_compute; reflexivity | exact H].
  - unfold b64_char. rewrite nth_overflow; [reflexivity|].
    change (length b64_alphabet) with 64%nat. lia.
Qed.

Lemma plain_b64encode bs : forallb plain_char (b64encode bs) = true.
Proof.
  induction bs as [ | a | a b | a b c bs IH ] using list_ind3;
    cbn [b64encode]; cbv zeta; cbn [forallb];
    rewrite ?plain_b64_char, ?IH; reflexivity.
Qed.

(** X16: no character of the data URL needs an escape, so the text that
    [base64_encoding] returns holds the URL as it is, between double
    quotes, after a part and before a part that are the same for every
    file. *)
Theorem data_url_stands_unescaped :
  exists before after,
    forall w path B,
      files w path = Ok B ->
      outcome (base64_encoding path) w
      = Ok (before ++ 34%N :: (u "data:image/png;base64," ++ b64encode B)
            ++ 34%N :: after).
Proof.
  exists (firstn 273 (dumps (image_body []))),
    (skipn 275 (dumps (image_body []))).
  intros w path B H.
  unfold outcome. rewrite run_base64_encoding, H. cbn [fst rbind]. f_equal.
  assert (E : encode_chars (data_url_prefix ++ b64encode B)
              = data_url_prefix ++ b64encode B).
  { apply encode_plain_chars. rewrite forallb_app, plain_b64encode.
    reflexivity. }
  assert (S : forall url,
             dumps (image_body url)
             = firstn 273 (dumps (image_body []))
               ++ 34%N :: encode_chars url
               ++ 34%N :: skipn 275 (dumps (image_body []))).
  { intros url.
    let b := eval vm_compute in (firstn 273 (dumps (image_body []))) in
    change (firstn 273 (dumps (image_body []))) with b.
    let a := eval vm_compute in (skipn 275 (dumps (image_body []))) in
    change (skipn 275 (dumps (image_body []))) with a.
    cbv -[encode_chars List.app]. generalize (encode_chars url). intros X.
    repeat first [ progress cbn [List.app]
                 | rewrite <- List.app_assoc ].
    vm_compute. reflexivity. }
  rewrite S, E. cbn [List.app]. rewrite <- List.app_assoc. reflexivity.
Qed.

(** ** A further field is added at the end *)

Lemma props_of_app specs specs' (acc : dict) :
  props_of (specs ++ specs') acc = props_of specs' (props_of specs acc).
Proof. unfold props_of. apply fold_left_app. Qed.

(** X17: a further item with a new name leaves the entries of the ones
    before it as they are and in their order: its entry comes last in
    [properties] and its name last in [required]. *)
Theorem new_field_is_added_last items specs item f t :
  map field_spec items = map Some specs ->
  Forall (fun ft => scalar_str (fst ft) /\ scalar_str (snd ft)) specs ->
  field_spec item = Some (f, t) ->
  scalar_str f -> scalar_str t ->
  ~ In f (map fst specs) ->
  exists out out' j j' properties required,
    generate_openai_address_request (PList items) = Ok out /\
    generate_openai_address_request (PList (items ++ [item])) = Ok out' /\
    loads out = Some j /\
    loads out' = Some j' /\
    at_path j (item_schema_path ++ [Key "properties"])
    = Some (PDict properties) /\
    at_path j' (item_schema_path ++ [Key "properties"])
    = Some (PDict (properties ++ [(KStr f, type_schema t)])) /\
    at_path j (item_schema_path ++ [Key "required"])
    = Some (PList (map PStr required)) /\
    at_path j' (item_schema_path ++ [Key "required"])
    = Some (PList (map PStr (required ++ [f]))).
Proof.
  intros Hi Hs Hit Hf Ht Hnew.
  assert (Hi' : map field_spec (items ++ [item])
                = map Some (specs ++ [(f, t)])).
  { rewrite !map_app, Hi. cbn [map]. rewrite Hit. reflexivity. }
  assert (Hs' : Forall (fun ft => scalar_str (fst ft) /\ scalar_str (snd ft))
                  (specs ++ [(f, t)])).
  { apply Forall_app. split; [exact Hs|]. constructor; [|constructor].
    split; assumption. }
  destruct (address_request_built items Hi Hs) as [Hout Hload].
  destruct (address_request_built (items ++ [item]) Hi' Hs') as [Hout' Hload'].
  destruct (@props_of_spec specs [] [] eq_refl) as [K _].
  cbn [List.app] in K.
  assert (E : props_of (specs ++ [(f, t)]) []
              = props_of specs [] ++ [(KStr f, type_schema t)]).
  { rewrite props_of_app. unfold props_of at 1. cbn [fold_left fst snd].
    apply dict_set_fresh.
    - pose proof (@props_of_entries specs Hs [] (Forall_nil _)) as P.
      unfold dict_keys. apply Forall_map.
      eapply Forall_impl; [|exact P]. cbn. tauto.
    - exists f. auto.
    - rewrite K. intros Hin. apply in_map_iff in Hin.
      destruct Hin as (g & Eg & Hg). inversion Eg; subst g.
      apply distinct_names_in in Hg. tauto. }
  rewrite E in Hout', Hload'.
  exists (dumps (address_body (props_of specs []))),
    (dumps (address_body (props_of specs [] ++ [(KStr f, type_schema t)]))),
    (address_body (props_of specs [])),
    (address_body (props_of specs [] ++ [(KStr f, type_schema t)])),
    (props_of specs []), (distinct_names [] specs).
  split; [exact Hout|]. split; [exact Hout'|].
  split; [exact Hload|]. split; [exact Hload'|].
  split; [reflexivity|]. split; [reflexivity|].
  split.
  - cbn. rewrite K, map_map. reflexivity.
  - cbn. unfold dict_keys. rewrite map_app.
    fold (dict_keys (props_of specs [])). rewrite K.
    rewrite !map_app, !map_map. reflexivity.
Qed.

(** X17 at a second item named [zip] after one named [state]. *)
Lemma new_field_is_added_last_witness :
  exists out' j',
    generate_openai_address_request
      (PList ([PDict [(KStr (u "field"), PStr (u "state"));
                      (KStr (u "type"), PStr (u "string"))]]
              ++ [PDict [(KStr (u "field"), PStr (u "zip"));
                         (KStr (u "type"), PStr (u "number"))]]))
    = Ok out' /\
    loads out' = Some j' /\
    at_path j' (item_schema_path ++ [Key "required"])
    = Some (PList [PStr (u "state"); PStr (u "zip")]).
Proof.
  destruct (@new_field_is_added_last
              [PDict [(KStr (u "field"), PStr (u "state"));
                      (KStr (u "type"), PStr (u "string"))]]
              [(u "state", u "string")]
              (PDict [(KStr (u "field"), PStr (u "zip"));
                      (KStr (u "type"), PStr (u "number"))])
              (u "zip") (u "number"))
    as (out & out' & j & j' & properties & required
        & Hout & Hout' & Hj & Hj' & _ & _ & Hr & Hr').
  - reflexivity.
  - repeat constructor; apply scalar_u.
  - reflexivity.
  - apply scalar_u.
  - apply scalar_u.
  - vm_compute. intuition discriminate.
  - exists out', j'. split; [exact Hout'|]. split; [exact Hj'|].
    vm_compute in Hout'. injection Hout' as <-.
    vm_compute in Hj'. injection Hj' as <-.
    vm_compute. reflexivity.
Defined.
